(** * Verification of hummingbird's [Executor]

    A shallow embedding of [hummingbird/ml/_executor.py]: the variable
    name resolver [_fix_var_naming] run by [Executor.__init__], and
    [Executor.forward] (arity check, DataFrame splitting, input
    normalisation, operator wiring through the symbol table, output
    assembly).

    Python dictionaries are [gmap string _]; exceptions are an explicit
    error type; floating point values are IEEE-754 values given by the
    [spec_float] model, binary64 and binary32. *)

From Stdlib Require Import ZArith Ascii String List Bool Lia.
From Stdlib Require Import Floats.SpecFloat.
From stdpp Require Import base option list gmap strings pretty fin_maps.

Local Open Scope string_scope.
Local Open Scope list_scope.

(** ** Exceptions and the error monad *)

(** The runtime type of a Python value, as [type(x)] reports it.  A
    proper subclass keeps a reference to its base, so that [isinstance]
    can walk the chain while [type(x) is T] compares the head only. *)
Inductive pytype : Type :=
| Ty_list
| Ty_tuple
| Ty_ndarray
| Ty_Tensor
| Ty_DataFrame
| Ty_subclass (cls : string) (base : pytype)
| Ty_other (cls : string).

#[global] Instance pytype_eq_dec : EqDecision pytype.
Proof. solve_decision. Defined.

Inductive exn : Type :=
| AssertionError (msg : option (string * list string))
| RuntimeError (template : string) (input_name : string) (ty : pytype)
| KeyError (key : string)
| IndexError
| AttributeError (attr : string)
| TypeError (what : string)
| ValueError (what : string)
| OperatorError (what : string).

Inductive Result (A : Type) : Type :=
| Ok (a : A)
| Err (e : exn).
Arguments Ok {A} a.
Arguments Err {A} e.

Definition bind {A B : Type} (r : Result A) (k : A -> Result B) : Result B :=
  match r with
  | Ok a => k a
  | Err e => Err e
  end.

Declare Scope result_scope.
Delimit Scope result_scope with result.
Notation "'let*' x ':=' r 'in' k" := (bind r (fun x => k))
  (at level 10, x pattern, r at level 100, k at level 200) : result_scope.
Local Open Scope result_scope.

(** [[f(x) for x in l]], stopping at the first exception. *)
Fixpoint mapR {A B : Type} (f : A -> Result B) (l : list A) : Result (list B) :=
  match l with
  | [] => Ok []
  | x :: rest =>
      let* y := f x in
      let* ys := mapR f rest in
      Ok (y :: ys)
  end.

(** [d[key]] on a dictionary. *)
Definition getitem {A : Type} (d : gmap string A) (key : string) : Result A :=
  match d !! key with
  | Some v => Ok v
  | None => Err (KeyError key)
  end.

(** ** The variable name resolver *)

Module Naming.

(** An [onnxconverter_common.topology.Variable], as far as the executor
    reads it. *)
Record Var : Type := mkVar {
  raw_name : string;
  full_name : string
}.

(** A topology operator, as far as [__init__] reads it. *)
Record Operator : Type := mkOperator {
  op_full_name : string;
  inputs : list Var;
  outputs : list Var
}.

Inductive mode : Type := Input | Output.

(** [iter = op.inputs if mod == "input" else op.outputs] *)
Definition side (mod_ : mode) (op : Operator) : list Var :=
  match mod_ with
  | Input => inputs op
  | Output => outputs op
  end.

(** The innermost loop: [for name in names: if i.raw_name == name and
    name not in map: map[i.raw_name] = i.full_name]. *)
Definition scan_names (i : Var) (names : list string)
    (map : gmap string string) : gmap string string :=
  foldl (fun map name =>
           if decide (raw_name i = name /\ map !! name = None)
           then <[raw_name i := full_name i]> map
           else map)
        map names.

(** [for i in iter: ...] *)
Definition scan_iter (names : list string) (iter : list Var)
    (map : gmap string string) : gmap string string :=
  foldl (fun map i => scan_names i names map) map iter.

(** [for op in operators: ...; if len(map) == len(names): break] *)
Fixpoint scan_operators (mod_ : mode) (names : list string)
    (operators : list Operator) (map : gmap string string)
    : gmap string string :=
  match operators with
  | [] => map
  | op :: rest =>
      let map' := scan_iter names (side mod_ op) map in
      if Nat.eqb (size map') (length names) then map'
      else scan_operators mod_ names rest map'
  end.

Definition _fix_var_naming (operators : list Operator)
    (names : list string) (mod_ : mode) : Result (list string) :=
  let map := scan_operators mod_ names operators ∅ in
  if decide (map = ∅) then Ok names
  else mapR (getitem map) names.

(** The same scan without the early [break]. *)
Definition scan_all (mod_ : mode) (names : list string)
    (operators : list Operator) (map : gmap string string)
    : gmap string string :=
  foldl (fun map op => scan_iter names (side mod_ op) map) map operators.

(** All variables the scan visits, in visiting order. *)
Definition visited (mod_ : mode) (operators : list Operator) : list Var :=
  concat (List.map (side mod_) operators).

(** The first visited variable carrying a given raw name. *)
Definition first_named (name : string) (vars : list Var) : option Var :=
  List.find (fun v => String.eqb (raw_name v) name) vars.

End Naming.

(** ** IEEE-754 values: binary64 and binary32 *)

Module IEEE.

Definition b64_of_Z (z : Z) : spec_float := binary_normalize 53 1024 z 0 false.

Definition b64_div (x y : spec_float) : spec_float := SFdiv 53 1024 x y.

(** Rounding of a binary64 value to binary32, to nearest even. *)
Definition b32_of_b64 (x : spec_float) : spec_float :=
  match x with
  | S754_finite sx mx ex => binary_normalize 24 128 (cond_Zopp sx (Zpos mx)) ex sx
  | _ => x
  end.

(** The value of a finite float is a whole number. *)
Definition is_integral (x : spec_float) : bool :=
  match x with
  | S754_zero _ => true
  | S754_finite _ mx ex =>
      match ex with
      | Zneg k => Z.eqb (Z.land (Zpos mx) (Z.ones (Zpos k))) 0
      | _ => true
      end
  | _ => false
  end.

End IEEE.

(** ** numpy arrays *)

Module Np.

Local Open Scope Z_scope.

Inductive time_unit : Type :=
| U_Y | U_M | U_W | U_D | U_h | U_m | U_s | U_ms | U_us | U_ns | U_ps | U_fs | U_as.

Inductive dtype : Type :=
| bool_ | int8 | int16 | int32 | int64 | uint8
| float16 | float32 | float64 | complex64 | complex128
| datetime64 (u : time_unit)
| timedelta64 (u : time_unit)
| bytes_ (width : nat)
| str_ (width : nat)
| object_.

#[global] Instance time_unit_eq_dec : EqDecision time_unit.
Proof. solve_decision. Defined.
#[global] Instance dtype_eq_dec : EqDecision dtype.
Proof. solve_decision. Defined.

(** [dtype.kind] *)
Definition kind (d : dtype) : ascii :=
  match d with
  | bool_ => "b"
  | int8 | int16 | int32 | int64 => "i"
  | uint8 => "u"
  | float16 | float32 | float64 => "f"
  | complex64 | complex128 => "c"
  | datetime64 _ => "M"
  | timedelta64 _ => "m"
  | bytes_ _ => "S"
  | str_ _ => "U"
  | object_ => "O"
  end%char.

(** One array element.  Datetimes and timedeltas are 64-bit tick
    counts in the unit of the dtype. *)
Inductive scalar : Type :=
| Bool (b : bool)
| Int (z : Z)
| Float (f : spec_float)
| Complex (re im : spec_float)
| Ticks (t : Z)
| Text (s : string)
| Obj (repr : string).

(** Element width in bits ([8 * dtype.itemsize]). *)
Definition width (d : dtype) : nat :=
  match d with
  | bool_ | int8 | uint8 => 8
  | int16 | float16 => 16
  | int32 | float32 => 32
  | int64 | float64 | complex64 | datetime64 _ | timedelta64 _ | object_ => 64
  | complex128 => 128
  | bytes_ n => 8 * n
  | str_ n => 32 * n
  end%nat.

(** An array: element type, shape, the elements in C order, and how
    they lie in memory: the byte step of each axis and whether the
    bytes of an element are in the machine's order. *)
Record ndarray : Type := mk_ndarray {
  dtype_of : dtype;
  shape : list nat;
  data : list scalar;
  strides : list Z;
  native : bool
}.

Definition size (a : ndarray) : nat := fold_right Nat.mul 1%nat (shape a).

(** [dtype.itemsize] *)
Definition itemsize (d : dtype) : Z := Z.of_nat (width d) / 8.

(** The strides numpy gives a newly allocated C-ordered array; an axis
    of length 0 counts as one of length 1. *)
Fixpoint contiguous_strides (item : Z) (dims : list nat) : list Z :=
  match dims with
  | [] => []
  | _ :: rest =>
      item * fold_right (fun k acc => (if Nat.eqb k 0 then 1 else Z.of_nat k) * acc) 1 rest
      :: contiguous_strides item rest
  end.

(** A new array, as numpy allocates the result of an operation. *)
Definition fresh (d : dtype) (dims : list nat) (xs : list scalar) : ndarray :=
  {| dtype_of := d; shape := dims; data := xs;
     strides := contiguous_strides (itemsize d) dims; native := true |}.

(** The axes of length other than 1, each with its stride. *)
Definition kept_axes (a : ndarray) : list (nat * Z) :=
  List.filter (fun p => negb (Nat.eqb (fst p) 1)) (combine (shape a) (strides a)).

(** Successive axes lie in memory like one axis. *)
Fixpoint mergeable (axes : list (nat * Z)) : bool :=
  match axes with
  | p :: (q :: _) as rest => Z.eqb (snd p) (Z.of_nat (fst q) * snd q) && mergeable rest
  | _ => true
  end.

(** The stride of the one axis all the elements lie along, if they
    do. *)
Definition merged_stride (a : ndarray) : option Z :=
  if mergeable (kept_axes a) then
    match rev (kept_axes a) with
    | p :: _ => Some (snd p)
    | [] => None
    end
  else None.

(** [a.reshape(-1, 1)]: the array itself seen anew when it has that
    shape already; a view when its more than one elements lie along
    one stride; newly laid out otherwise. *)
Definition reshape_column (a : ndarray) : ndarray :=
  let item := itemsize (dtype_of a) in
  {| dtype_of := dtype_of a; shape := [size a; 1%nat]; data := data a;
     strides :=
       if decide (shape a = [size a; 1%nat]) then strides a
       else match (if Nat.ltb 1 (size a) then merged_stride a else None) with
            | Some s => [s; s]
            | None => [item; item]
            end;
     native := native a |}.

(** *** 64-bit integers *)

Definition wrap64 (z : Z) : Z := (z + 2 ^ 63) mod 2 ^ 64 - 2 ^ 63.

(** Not-a-time is the smallest 64-bit integer. *)
Definition NaT : Z := - 2 ^ 63.

(** *** Datetime units *)

(** Rank of a unit, coarse to fine. *)
Definition rank (u : time_unit) : nat :=
  (match u with
   | U_Y => 0 | U_M => 1 | U_W => 2 | U_D => 3 | U_h => 4 | U_m => 5 | U_s => 6
   | U_ms => 7 | U_us => 8 | U_ns => 9 | U_ps => 10 | U_fs => 11 | U_as => 12
   end)%nat.

(** The unit of the result when two datetimes meet: the finer one. *)
Definition finer (u v : time_unit) : time_unit :=
  if Nat.leb (rank u) (rank v) then v else u.

(** Attoseconds in one tick of a unit of fixed length. *)
Definition attos (u : time_unit) : Z :=
  match u with
  | U_as => 1
  | U_fs => 10 ^ 3
  | U_ps => 10 ^ 6
  | U_ns => 10 ^ 9
  | U_us => 10 ^ 12
  | U_ms => 10 ^ 15
  | U_s => 10 ^ 18
  | U_m => 60 * 10 ^ 18
  | U_h => 3600 * 10 ^ 18
  | U_D | U_Y | U_M => 86400 * 10 ^ 18
  | U_W => 7 * 86400 * 10 ^ 18
  end.

(** Leap days before the first of January of a year (proleptic
    Gregorian calendar). *)
Definition leaps_before (year : Z) : Z :=
  (year - 1) / 4 - (year - 1) / 100 + (year - 1) / 400.

Definition is_leap (year : Z) : bool :=
  (Z.eqb (year mod 4) 0 && negb (Z.eqb (year mod 100) 0)) || Z.eqb (year mod 400) 0.

(** Days from 1970-01-01 to the first of January of year [1970 + y]. *)
Definition days_of_years (y : Z) : Z :=
  365 * y + leaps_before (1970 + y) - leaps_before 1970.

Definition month_lengths (leap : bool) : list Z :=
  [31; if leap then 29 else 28; 31; 30; 31; 30; 31; 31; 30; 31; 30; 31].

(** Days from 1970-01-01 to the first day of month [mo] counted from
    1970-01. *)
Definition days_of_months (mo : Z) : Z :=
  let y := mo / 12 in
  days_of_years y
  + fold_right Z.add 0 (firstn (Z.to_nat (mo mod 12)) (month_lengths (is_leap (1970 + y)))).

(** Days counted by a tick of a calendar unit; other units unchanged. *)
Definition calendar_days (u : time_unit) (t : Z) : Z :=
  match u with
  | U_Y => days_of_years t
  | U_M => days_of_months t
  | _ => t
  end.

(** Strictly inside the 64-bit range, the smallest value being [NaT]. *)
Definition in_int64 (z : Z) : bool := Z.ltb (- 2 ^ 63) z && Z.ltb z (2 ^ 63).

(** The tick count in a unit [v] at least as fine as [u] that stands
    for the same instant as [t] ticks of [u]. *)
Definition exact_ticks (u v : time_unit) (t : Z) : Z :=
  calendar_days u t * (attos u / attos v).

(** Cast of a datetime tick count from unit [u] to a unit [v] that is
    at least as fine: [NaT] is kept, a count that stays in the 64-bit
    range is exact, and what numpy's 64-bit arithmetic makes of one
    that leaves it is [overflow]'s to say. *)
Definition cast_ticks (overflow : time_unit -> time_unit -> Z -> Result Z)
    (u v : time_unit) (t : Z) : Result Z :=
  if Z.eqb t NaT then Ok NaT
  else if in_int64 (exact_ticks u v t) then Ok (exact_ticks u v t)
  else overflow u v t.

(** The scalar [np.datetime64("1970-01-01T00:00:00.000000000")]: unit
    [ns], tick count 0. *)
Definition epoch_unit : time_unit := U_ns.
Definition epoch_ticks : Z := 0.

Definition sub_ticks (x y : Z) : Z :=
  if Z.eqb x NaT || Z.eqb y NaT then NaT else wrap64 (x - y).

(** Elapsed ticks since the epoch of one element of a
    [datetime64[u]] array, in the unit [finer u ns]. *)
Definition since_epoch (overflow : time_unit -> time_unit -> Z -> Result Z)
    (u : time_unit) (t : Z) : Result Z :=
  let v := finer u epoch_unit in
  let* x := cast_ticks overflow u v t in
  let* e := cast_ticks overflow epoch_unit v epoch_ticks in
  Ok (sub_ticks x e).

(** The same where nothing leaves the 64-bit range. *)
Definition exact_since_epoch (u : time_unit) (t : Z) : Z :=
  if Z.eqb t NaT then NaT else exact_ticks u (finer u epoch_unit) t.

(** [t] ticks of [u] are not-a-time or an instant whose tick count in
    [finer u ns] stays in the 64-bit range. *)
Definition representable (u : time_unit) (t : Z) : bool :=
  Z.eqb t NaT || in_int64 (exact_ticks u (finer u epoch_unit) t).

(** The result of an elementwise operation: a new array of the same
    shape. *)
Definition map_data (f : scalar -> scalar) (d : dtype) (a : ndarray) : ndarray :=
  fresh d (shape a) (List.map f (data a)).

(** [a - np.datetime64("1970-01-01T00:00:00.000000000")] on an array
    of kind [M]. *)
Definition subtract_epoch (overflow : time_unit -> time_unit -> Z -> Result Z)
    (a : ndarray) : Result ndarray :=
  match dtype_of a with
  | datetime64 u =>
      let* ticks := mapR (fun x => match x with
                                   | Ticks t => let* s := since_epoch overflow u t in
                                                Ok (Ticks s)
                                   | _ => Ok x
                                   end) (data a) in
      Ok (fresh (timedelta64 (finer u epoch_unit)) (shape a) ticks)
  | _ => Ok a
  end.

(** [a.astype(np.int64)] on an array of kind [m]: the tick counts. *)
Definition astype_int64 (a : ndarray) : ndarray :=
  map_data (fun x => match x with Ticks t => Int t | _ => x end) int64 a.

(** [a / k] for an [int64] array and a Python integer: numpy's
    [true_divide], both operands taken to binary64 first. *)
Definition true_divide (a : ndarray) (k : Z) : ndarray :=
  map_data (fun x => match x with
                     | Int z => Float (IEEE.b64_div (IEEE.b64_of_Z z) (IEEE.b64_of_Z k))
                     | _ => x
                     end)
           float64 a.

(** [a[i]] along the first axis. *)
Definition index0 (a : ndarray) (i : nat) : Result ndarray :=
  match shape a with
  | [] => Err IndexError
  | d0 :: rest =>
      if Nat.ltb i d0 then
        let n := fold_right Nat.mul 1%nat rest in
        Ok {| dtype_of := dtype_of a; shape := rest;
              data := firstn n (skipn (i * n)%nat (data a));
              strides := tl (strides a); native := native a |}
      else Err IndexError
  end.

End Np.

(** ** torch tensors *)

Module Torch.

Inductive dtype : Type :=
| bool_ | uint8 | int8 | int16 | int32 | int64
| float16 | bfloat16 | float32 | float64 | complex64 | complex128.

#[global] Instance dtype_eq_dec : EqDecision dtype.
Proof. solve_decision. Defined.

Record device : Type := mk_device {
  type : string;
  index : option nat
}.

Definition cpu : device := {| type := "cpu"; index := None |}.

Record Tensor : Type := mk_Tensor {
  dtype_of : dtype;
  shape : list nat;
  data : list Np.scalar;
  device_of : device
}.

(** Element width in bits. *)
Definition width (d : dtype) : nat :=
  match d with
  | bool_ | uint8 | int8 => 8
  | int16 | float16 | bfloat16 => 16
  | int32 | float32 => 32
  | int64 | float64 | complex64 => 64
  | complex128 => 128
  end.

(** The element types [torch.from_numpy] accepts. *)
Definition of_numpy_dtype (d : Np.dtype) : option dtype :=
  match d with
  | Np.bool_ => Some bool_
  | Np.uint8 => Some uint8
  | Np.int8 => Some int8
  | Np.int16 => Some int16
  | Np.int32 => Some int32
  | Np.int64 => Some int64
  | Np.float16 => Some float16
  | Np.float32 => Some float32
  | Np.float64 => Some float64
  | Np.complex64 => Some complex64
  | Np.complex128 => Some complex128
  | _ => None
  end.

(** What [torch.from_numpy] refuses in the way an array lies in
    memory, in the order it looks: a stride that is no multiple of the
    element size, a negative stride, a foreign byte order. *)
Definition layout_error (a : Np.ndarray) : option string :=
  if negb (forallb (fun s => Z.eqb (s mod Np.itemsize (Np.dtype_of a)) 0) (Np.strides a))
  then Some "given numpy array strides not a multiple of the element byte size"
  else if negb (forallb (fun s => Z.leb 0 s) (Np.strides a))
  then Some "At least one stride in the given numpy array is negative"
  else if negb (Np.native a)
  then Some "given numpy array has byte order different from the native byte order"
  else None.

(** [torch.from_numpy(a)]: a CPU tensor over the array's data. *)
Definition from_numpy (a : Np.ndarray) : Result Tensor :=
  match layout_error a with
  | Some what => Err (ValueError what)
  | None =>
      match of_numpy_dtype (Np.dtype_of a) with
      | Some d =>
          Ok {| dtype_of := d; shape := Np.shape a; data := Np.data a; device_of := cpu |}
      | None => Err (TypeError "can't convert np.ndarray of this type to a tensor")
      end
  end.

(** [t.float()]: cast to single precision. *)
Definition float (t : Tensor) : Tensor :=
  {| dtype_of := float32;
     shape := shape t;
     data := List.map (fun x => match x with
                                | Np.Float f =>
                                    if decide (dtype_of t = float64)
                                    then Np.Float (IEEE.b32_of_b64 f) else x
                                | _ => x
                                end) (data t);
     device_of := device_of t |}.

(** [t.to(device)] *)
Definition to (t : Tensor) (d : device) : Tensor :=
  {| dtype_of := dtype_of t; shape := shape t; data := data t; device_of := d |}.

(** [t[i]] along the first dimension. *)
Definition index0 (t : Tensor) (i : nat) : Result Tensor :=
  match shape t with
  | [] => Err IndexError
  | d0 :: rest =>
      if Nat.ltb i d0 then
        let n := fold_right Nat.mul 1%nat rest in
        Ok {| dtype_of := dtype_of t; shape := rest;
              data := firstn n (skipn (i * n) (data t)); device_of := device_of t |}
      else Err IndexError
  end.

End Torch.

(** ** pandas frames *)

Module Pd.

(** A column: its label and the one-dimensional array of its values. *)
Record Series : Type := mk_Series {
  name : string;
  values : Np.ndarray
}.

(** A frame is its columns in order; labels may repeat. *)
Record DataFrame : Type := mk_DataFrame {
  series : list Series
}.

(** [list(df.columns)] *)
Definition columns (df : DataFrame) : list string := List.map name (series df).

(** [df[label]]: every column carrying the label, in frame order.  With
    a unique label pandas hands back that Series, with a repeated one
    the sub-frame of all of them. *)
Definition select (df : DataFrame) (label : string) : list Series :=
  List.filter (fun c => String.eqb (name c) label) (series df).

End Pd.

(** ** Python values reaching the executor *)

#[warnings="-register-all"]
Inductive pyobj : Type :=
| Py_list (items : list pyobj)
| Py_tuple (items : list pyobj)
| Py_ndarray (a : Np.ndarray)
| Py_Tensor (t : Torch.Tensor)
| Py_DataFrame (df : Pd.DataFrame)
| Py_scalar (x : Np.scalar)
| Py_instance (cls : string) (base : pyobj)
| Py_other (cls : string).

(** [type(x).__name__] of a Python number, string or other plain value. *)
Definition scalar_class (x : Np.scalar) : string :=
  match x with
  | Np.Bool _ => "bool"
  | Np.Int _ => "int"
  | Np.Float _ => "float"
  | Np.Complex _ _ => "complex"
  | Np.Ticks _ => "datetime64"
  | Np.Text _ => "str"
  | Np.Obj _ => "object"
  end.

(** [type(x)].  [Py_instance cls base] is an instance of a proper subclass
    [cls] of [type(base)] that carries the data of [base]. *)
Fixpoint type_of (x : pyobj) : pytype :=
  match x with
  | Py_list _ => Ty_list
  | Py_tuple _ => Ty_tuple
  | Py_ndarray _ => Ty_ndarray
  | Py_Tensor _ => Ty_Tensor
  | Py_DataFrame _ => Ty_DataFrame
  | Py_scalar x => Ty_other (scalar_class x)
  | Py_instance cls base => Ty_subclass cls (type_of base)
  | Py_other cls => Ty_other cls
  end.

(** [issubclass(ty, cls)] *)
Fixpoint issubclass (ty cls : pytype) : bool :=
  if decide (ty = cls) then true
  else match ty with
       | Ty_subclass _ base => issubclass base cls
       | _ => false
       end.

(** [isinstance(x, cls)] *)
Definition isinstance (x : pyobj) (cls : pytype) : bool := issubclass (type_of x) cls.

(** An instance of a class derived from [cls], not of [cls] itself. *)
Definition proper_subclass_instance (x : pyobj) (cls : pytype) : Prop :=
  type_of x <> cls /\ isinstance x cls = true.

(** The frame inside an instance of [DataFrame] or of one of its
    subclasses. *)
Fixpoint as_DataFrame (x : pyobj) : option Pd.DataFrame :=
  match x with
  | Py_DataFrame df => Some df
  | Py_instance _ base => as_DataFrame base
  | _ => None
  end.

(** [x[i]] for an integer [i], on what an operator may return. *)
Fixpoint subscript (x : pyobj) (i : nat) : Result pyobj :=
  match x with
  | Py_list items | Py_tuple items =>
      match nth_error items i with
      | Some y => Ok y
      | None => Err IndexError
      end
  | Py_ndarray a => let* b := Np.index0 a i in Ok (Py_ndarray b)
  | Py_Tensor t => let* u := Torch.index0 t i in Ok (Py_Tensor u)
  | Py_DataFrame _ => Err (KeyError (pretty i))
  | Py_instance _ base => subscript base i
  | Py_scalar _ | Py_other _ => Err (TypeError "object is not subscriptable")
  end.

(** ** The executor *)

(** A converted operator: the canonical names it reads and writes, and
    its transform, a function of its positional arguments. *)
Record PhysicalOperator : Type := mk_PhysicalOperator {
  inputs : list string;
  outputs : list string;
  transform : list pyobj -> Result pyobj
}.

(** The attributes of an [Executor].  [check_dataframe_to_array] is read
    by [forward] and assigned by no method of the class: [None] stands
    for the attribute never having been assigned. *)
Record Executor : Type := mk_Executor {
  _input_names : list string;
  _output_names : list string;
  _operators : list PhysicalOperator;
  max_string_length : option Z;
  check_dataframe_to_array : option bool
}.

(** What the executor takes from outside its own file: whether pandas
    can be imported, two constants of [operator_converters.constants],
    two helpers of [hummingbird.ml._utils], what numpy makes of a
    datetime cast that leaves the 64-bit range, and the numpy and
    pandas conversions whose results it only passes on. *)
Class External : Type := {
  pandas_installed : bool;
  SUPPORTED_STRING_TYPES : list ascii;
  MAX_STRING_LENGTH : string;
  from_strings_to_ints : Np.ndarray -> Z -> Result Np.ndarray;
  get_device : Executor -> option Torch.device;
  datetime_overflow : Np.time_unit -> Np.time_unit -> Z -> Result Z;
  np_array : list pyobj -> Result Np.ndarray;
  frame_to_numpy : list Pd.Series -> Np.ndarray
}.

(** What the process shows besides the value returned: the lines
    printed and torch's gradient mode. *)
Inductive printed : Type :=
| Printed_text (s : string)
| Printed_objects (xs : list pyobj)
| Printed_names (s : string) (names : list string).

Record World : Type := mk_World {
  stdout : list printed;
  grad_enabled : bool
}.

Definition print (p : printed) (w : World) : World :=
  {| stdout := stdout w ++ [p]; grad_enabled := grad_enabled w |}.

(** [with torch.no_grad(): body]: gradient mode off inside, the former
    mode back on every exit. *)
Definition no_grad {A : Type} (body : World -> A * World) (w : World) : A * World :=
  let prev := grad_enabled w in
  let '(r, w') := body {| stdout := stdout w; grad_enabled := false |} in
  (r, {| stdout := stdout w'; grad_enabled := prev |}).

Definition arity_message : string :=
  "number of inputs or number of columns in the dataframe do not match with the expected number of inputs {}".

Definition type_message : string := "Inputer tensor {} of not supported type {}".

Section Executor.

Context `{Ext : External}.

(** [Executor.__init__] *)
Definition __init__ (input_names output_names : list string)
    (operator_map : gmap string PhysicalOperator)
    (operators : list Naming.Operator)
    (extra_config : gmap string Z) : Result Executor :=
  let* ins := Naming._fix_var_naming operators input_names Naming.Input in
  let* outs := Naming._fix_var_naming (rev operators) output_names Naming.Output in
  let* ops := mapR (fun operator => getitem operator_map (Naming.op_full_name operator))
                   operators in
  Ok {| _input_names := ins;
        _output_names := outs;
        _operators := ops;
        max_string_length := extra_config !! MAX_STRING_LENGTH;
        check_dataframe_to_array := None |}.

Definition arity_error (self : Executor) : exn :=
  AssertionError (Some (arity_message, _input_names self)).

(** The [assert] opening [forward], its operands evaluated left to
    right and only as far as needed. *)
Definition check_arity (self : Executor) (inputs : list pyobj) : Result unit :=
  if Nat.eqb (length (_input_names self)) (length inputs) then Ok tt
  else if negb pandas_installed then Err (arity_error self)
  else match inputs with
       | [] => Err IndexError
       | first :: _ =>
           if negb (isinstance first Ty_DataFrame) then Err (arity_error self)
           else match check_dataframe_to_array self with
                | None => Err (AttributeError "check_dataframe_to_array")
                | Some true => Err (arity_error self)
                | Some false =>
                    match as_DataFrame first with
                    | Some df =>
                        if Nat.eqb (length (_input_names self)) (length (Pd.columns df))
                        then Ok tt else Err (arity_error self)
                    | None => Err (AttributeError "columns")
                    end
                end
       end.

(** [sel.to_numpy()] for what [df[label]] returned. *)
Definition to_numpy (sel : list Pd.Series) : Np.ndarray :=
  match sel with
  | [c] => Pd.values c
  | _ => frame_to_numpy sel
  end.

(** "Split the dataframe into column ndarrays." *)
Definition split_frame (df : Pd.DataFrame) : list pyobj :=
  let input_names := Pd.columns df in
  let splits := List.map (fun label => Pd.select df label) input_names in
  List.map (fun sel => Py_ndarray (Np.reshape_column (to_numpy sel))) splits.

(** Lines 80 to 87: the input list the binding loop reads. *)
Definition input_list (inputs : list pyobj) : Result (list pyobj) :=
  if negb pandas_installed then Ok inputs
  else match inputs with
       | [] => Err IndexError
       | first :: _ =>
           if isinstance first Ty_DataFrame then
             match as_DataFrame first with
             | Some df => Ok (split_frame df)
             | None => Err (AttributeError "columns")
             end
           else Ok inputs
       end.

(** [kind in constants.SUPPORTED_STRING_TYPES] *)
Definition is_string_kind (k : ascii) : bool :=
  existsb (Ascii.eqb k) SUPPORTED_STRING_TYPES.

(** "We convert into seconds from 1970-1-1." *)
Definition datetime_to_seconds (a : Np.ndarray) : Result Np.ndarray :=
  let* elapsed := Np.subtract_epoch datetime_overflow a in
  Ok (Np.true_divide (Np.astype_int64 elapsed) 1000000000).

(** The array branch of the loop body, up to [torch.from_numpy].  On
    an array without axes numpy's operators return a number, not an
    array, and [torch.from_numpy] refuses it. *)
Definition convert_array (self : Executor) (a : Np.ndarray) : Result Torch.Tensor :=
  let* a' :=
    (if is_string_kind (Np.kind (Np.dtype_of a)) then
       match max_string_length self with
       | None => Err (AssertionError None)
       | Some n => from_strings_to_ints a n
       end
     else if Ascii.eqb (Np.kind (Np.dtype_of a)) "M" then
       let* seconds := datetime_to_seconds a in
       match Np.shape a with
       | [] => Err (TypeError "expected np.ndarray (got numpy.float64)")
       | _ => Ok seconds
       end
     else Ok a) in
  Torch.from_numpy a'.

(** The value bound for one representable element of a
    [datetime64[u]] array: the steps of [datetime_to_seconds], then the
    cast to single precision. *)
Definition bound_seconds (u : Np.time_unit) (ticks : Z) : spec_float :=
  IEEE.b32_of_b64
    (IEEE.b64_div (IEEE.b64_of_Z (Np.exact_since_epoch u ticks)) (IEEE.b64_of_Z 1000000000)).

(** [if device is not None and device.type != "cpu": input_ =
    input_.to(device)] *)
Definition place (device : option Torch.device) (t : Torch.Tensor) : Torch.Tensor :=
  match device with
  | Some d => if negb (String.eqb (Torch.type d) "cpu") then Torch.to t d else t
  | None => t
  end.

(** The body of the binding loop for one input: the tensor bound
    under [input_name]. *)
Definition normalize (self : Executor) (device : option Torch.device)
    (input_name : string) (input_ : pyobj) : Result Torch.Tensor :=
  let* input_ :=
    (match input_ with
     | Py_list items => let* a := np_array items in Ok (Py_ndarray a)
     | _ => Ok input_
     end) in
  let* t :=
    (match input_ with
     | Py_ndarray a => convert_array self a
     | Py_Tensor t => Ok t
     | _ => Err (RuntimeError type_message input_name (type_of input_))
     end) in
  let t := if decide (Torch.dtype_of t = Torch.float64) then Torch.float t else t in
  Ok (place device t).

(** [for i, input_name in enumerate(self._input_names): ...] from
    position [i] on. *)
Fixpoint bind_inputs (self : Executor) (device : option Torch.device)
    (names : list string) (i : nat) (inputs : list pyobj)
    (variable_map : gmap string pyobj) : Result (gmap string pyobj) :=
  match names with
  | [] => Ok variable_map
  | input_name :: rest =>
      let* input_ := (match nth_error inputs i with
                       | Some x => Ok x
                       | None => Err IndexError
                       end) in
      let* t := normalize self device input_name input_ in
      bind_inputs self device rest (S i) inputs (<[input_name := Py_Tensor t]> variable_map)
  end.

(** Everything up to the seeded symbol table. *)
Definition seed (self : Executor) (inputs : list pyobj) : Result (gmap string pyobj) :=
  let* _ := check_arity self inputs in
  let* inputs := input_list inputs in
  bind_inputs self (get_device self) (_input_names self) 0 inputs ∅.

(** [for i, output_name in enumerate(operator.outputs):
    variable_map[output_name] = outputs[i]] from position [i] on. *)
Fixpoint bind_outputs (names : list string) (i : nat) (outs : pyobj)
    (variable_map : gmap string pyobj) : Result (gmap string pyobj) :=
  match names with
  | [] => Ok variable_map
  | output_name :: rest =>
      let* v := subscript outs i in
      bind_outputs rest (S i) outs (<[output_name := v]> variable_map)
  end.

Definition run_operator (operator : PhysicalOperator)
    (variable_map : gmap string pyobj) : Result (gmap string pyobj) :=
  let* args := mapR (getitem variable_map) (inputs operator) in
  let* outs := transform operator args in
  match outputs operator with
  | [output_name] => Ok (<[output_name := outs]> variable_map)
  | names => bind_outputs names 0 outs variable_map
  end.

(** "Evaluate all the operators in the topology by properly wiring
    inputs \ outputs" *)
Fixpoint run_operators (operators : list PhysicalOperator)
    (variable_map : gmap string pyobj) : Result (gmap string pyobj) :=
  match operators with
  | [] => Ok variable_map
  | operator :: rest =>
      let* variable_map := run_operator operator variable_map in
      run_operators rest variable_map
  end.

(** "Prepare and return the output." *)
Definition assemble (self : Executor) (variable_map : gmap string pyobj) : Result pyobj :=
  match _output_names self with
  | [output_name] => getitem variable_map output_name
  | names => let* vs := mapR (getitem variable_map) names in Ok (Py_tuple vs)
  end.

(** The symbol table when the operator loop is over. *)
Definition final_map (self : Executor) (inputs : list pyobj) : Result (gmap string pyobj) :=
  let* variable_map := seed self inputs in
  run_operators (_operators self) variable_map.

(** [Executor.forward] *)
Definition forward (self : Executor) (inputs : list pyobj) (w : World)
    : Result pyobj * World :=
  let w := print (Printed_text "-------------checkpoint-forward-------------------") w in
  let w := print (Printed_objects inputs) w in
  no_grad (fun w =>
    match final_map self inputs with
    | Err e => (Err e, w)
    | Ok variable_map =>
        let w := print (Printed_names "self._output_names" (_output_names self)) w in
        (assemble self variable_map, w)
    end) w.

End Executor.

(** ** The symbol table as a dictionary in memory *)

(** [forward] once more, with the dictionaries of the process kept by
    address: [variable_map = {}] allocates one, [variable_map[k] = v]
    writes into it and [variable_map[k]] reads from it.  The
    dictionaries of earlier calls are still there when a call starts. *)
Section Tables.

Context `{Ext : External}.

(** [{}]: a new, empty dictionary at an address not in use. *)
Definition new_dict (h : gmap nat (gmap string pyobj)) : nat * gmap nat (gmap string pyobj) :=
  let l := fresh (dom h) in (l, <[l := ∅]> h).

(** [d[key] = v] on the dictionary at [l]. *)
Definition dict_set (l : nat) (key : string) (v : pyobj)
    (h : gmap nat (gmap string pyobj)) : gmap nat (gmap string pyobj) :=
  match h !! l with
  | Some d => <[l := <[key := v]> d]> h
  | None => h
  end.

(** [d[key]] on the dictionary at [l]. *)
Definition dict_get (l : nat) (key : string) (h : gmap nat (gmap string pyobj))
    : Result pyobj :=
  match h !! l with
  | Some d => getitem d key
  | None => Err (KeyError key)
  end.

(** The binding loop, lines 92 to 113, writing into the dictionary at
    [l]. *)
Fixpoint bind_inputs_in (self : Executor) (device : option Torch.device)
    (names : list string) (i : nat) (inputs : list pyobj) (l : nat)
    (h : gmap nat (gmap string pyobj)) : Result unit * gmap nat (gmap string pyobj) :=
  match names with
  | [] => (Ok tt, h)
  | input_name :: rest =>
      match nth_error inputs i with
      | None => (Err IndexError, h)
      | Some input_ =>
          match normalize self device input_name input_ with
          | Err e => (Err e, h)
          | Ok t =>
              bind_inputs_in self device rest (S i) inputs l
                (dict_set l input_name (Py_Tensor t) h)
          end
      end
  end.

(** Lines 122 and 123 on the dictionary at [l]. *)
Fixpoint bind_outputs_in (names : list string) (i : nat) (outs : pyobj) (l : nat)
    (h : gmap nat (gmap string pyobj)) : Result unit * gmap nat (gmap string pyobj) :=
  match names with
  | [] => (Ok tt, h)
  | output_name :: rest =>
      match subscript outs i with
      | Err e => (Err e, h)
      | Ok v => bind_outputs_in rest (S i) outs l (dict_set l output_name v h)
      end
  end.

(** Lines 117 to 123 for one operator. *)
Definition run_operator_in (operator : PhysicalOperator) (l : nat)
    (h : gmap nat (gmap string pyobj)) : Result unit * gmap nat (gmap string pyobj) :=
  match mapR (fun input_name => dict_get l input_name h) (inputs operator) with
  | Err e => (Err e, h)
  | Ok args =>
      match transform operator args with
      | Err e => (Err e, h)
      | Ok outs =>
          match outputs operator with
          | [output_name] => (Ok tt, dict_set l output_name outs h)
          | names => bind_outputs_in names 0 outs l h
          end
      end
  end.

Fixpoint run_operators_in (operators : list PhysicalOperator) (l : nat)
    (h : gmap nat (gmap string pyobj)) : Result unit * gmap nat (gmap string pyobj) :=
  match operators with
  | [] => (Ok tt, h)
  | operator :: rest =>
      match run_operator_in operator l h with
      | (Ok _, h') => run_operators_in rest l h'
      | (Err e, h') => (Err e, h')
      end
  end.

(** Lines 126 to 129 on the dictionary at [l]. *)
Definition assemble_in (self : Executor) (l : nat) (h : gmap nat (gmap string pyobj))
    : Result pyobj :=
  match _output_names self with
  | [output_name] => dict_get l output_name h
  | names =>
      let* vs := mapR (fun output_name => dict_get l output_name h) names in
      Ok (Py_tuple vs)
  end.

(** [Executor.forward] in a process whose dictionaries are [h]. *)
Definition forward_in (self : Executor) (inputs : list pyobj)
    (h : gmap nat (gmap string pyobj)) (w : World)
    : (Result pyobj * gmap nat (gmap string pyobj)) * World :=
  let w := print (Printed_text "-------------checkpoint-forward-------------------") w in
  let w := print (Printed_objects inputs) w in
  no_grad (fun w =>
    match (let* _ := check_arity self inputs in input_list inputs) with
    | Err e => ((Err e, h), w)
    | Ok ins =>
        let '(variable_map, h) := new_dict h in
        let device := get_device self in
        match bind_inputs_in self device (_input_names self) 0 ins variable_map h with
        | (Err e, h) => ((Err e, h), w)
        | (Ok _, h) =>
            match run_operators_in (_operators self) variable_map h with
            | (Err e, h) => ((Err e, h), w)
            | (Ok _, h) =>
                let w := print (Printed_names "self._output_names" (_output_names self)) w in
                ((assemble_in self variable_map h, h), w)
            end
        end
    end) w.

End Tables.

(** ** A concrete environment and small graphs *)

Module Sample.

Definition bytes_of (width : nat) (s : string) : list Z :=
  let codes := List.map (fun c => Z.of_nat (nat_of_ascii c)) (list_ascii_of_string s) in
  firstn width (codes ++ repeat 0%Z width).

Fixpoint words_of (fuel : nat) (bytes : list Z) : list Np.scalar :=
  match fuel, bytes with
  | S fuel, b0 :: b1 :: b2 :: b3 :: rest =>
      Np.Int (b0 + 256 * b1 + 65536 * b2 + 16777216 * b3)%Z :: words_of fuel rest
  | _, _ => []
  end.

(** Strings to 32-bit words, four bytes each, [max_string_length // 4]
    words per string; a length that is no multiple of four cannot be
    viewed as 32-bit words. *)
Definition strings_to_ints (a : Np.ndarray) (max_string_length : Z) : Result Np.ndarray :=
  if negb (Z.eqb (max_string_length mod 4) 0)
  then Err (ValueError "the last axis must be a multiple of the new element size")
  else
    let words := Z.to_nat (max_string_length / 4) in
    Ok (Np.fresh Np.int32 (Np.shape a ++ [words])
          (flat_map (fun x => match x with
                              | Np.Text s => words_of words (bytes_of (4 * words) s)
                              | _ => []
                              end) (Np.data a))).

Definition is_number (x : pyobj) : bool :=
  match x with
  | Py_scalar (Np.Float _) => true
  | Py_scalar (Np.Int _) => true
  | _ => false
  end.

Definition is_small_int (x : pyobj) : bool :=
  match x with
  | Py_scalar (Np.Int z) => Z.leb (- 2 ^ 63) z && Z.ltb z (2 ^ 63)
  | _ => false
  end.

(** [np.array] on a flat list of Python floats and ints: 64-bit
    integers when all are ints in that range, doubles when a float is
    among them.  Other lists are outside what this environment
    covers. *)
Definition array_of_list (items : list pyobj) : Result Np.ndarray :=
  if forallb is_small_int items
  then Ok (Np.fresh Np.int64 [length items]
             (flat_map (fun x => match x with Py_scalar y => [y] | _ => [] end) items))
  else if forallb is_number items
          && existsb (fun x => match x with Py_scalar (Np.Float _) => true | _ => false end)
                     items
  then Ok (Np.fresh Np.float64 [length items]
             (flat_map (fun x => match x with
                                 | Py_scalar (Np.Int z) => [Np.Float (IEEE.b64_of_Z z)]
                                 | Py_scalar y => [y]
                                 | _ => []
                                 end) items))
  else Err (ValueError "setting an array element with a sequence").

(** Columns that share their dtype, side by side, row after row. *)
Fixpoint interleave (cols : list (list Np.scalar)) (rows : nat) : list Np.scalar :=
  match rows with
  | O => []
  | S rows =>
      flat_map (fun c => firstn 1 c) cols ++ interleave (List.map (skipn 1) cols) rows
  end.

Definition frame_array (sel : list Pd.Series) : Np.ndarray :=
  let rows := match sel with
              | c :: _ => Np.size (Pd.values c)
              | [] => O
              end in
  Np.fresh (match sel with
            | c :: _ => Np.dtype_of (Pd.values c)
            | [] => Np.object_
            end)
           [rows; length sel]
           (interleave (List.map (fun c => Np.data (Pd.values c)) sel) rows).

#[export] Instance ext : External := {|
  pandas_installed := true;
  SUPPORTED_STRING_TYPES := ["S"; "U"]%char;
  MAX_STRING_LENGTH := "max_string_length";
  from_strings_to_ints := strings_to_ints;
  get_device := fun _ => None;
  datetime_overflow := fun u v t => Ok (Np.wrap64 (Np.exact_ticks u v t));
  np_array := array_of_list;
  frame_to_numpy := frame_array
|}.

(** Two stages that both write the raw name [y]. *)
Definition scaler : Naming.Operator :=
  {| Naming.op_full_name := "scaler";
     Naming.inputs := [Naming.mkVar "x" "x0"];
     Naming.outputs := [Naming.mkVar "y" "y1"] |}.

Definition classifier : Naming.Operator :=
  {| Naming.op_full_name := "classifier";
     Naming.inputs := [Naming.mkVar "y" "y1"];
     Naming.outputs := [Naming.mkVar "y" "y2"; Naming.mkVar "p" "p0"] |}.

(** The identity on its single argument. *)
Definition identity (args : list pyobj) : Result pyobj :=
  match args with
  | [x] => Ok x
  | _ => Err (TypeError "forward() takes 1 positional argument")
  end.

(** Its single argument, and the first row of it. *)
Definition with_first_row (args : list pyobj) : Result pyobj :=
  match args with
  | [x] => let* row := subscript x 0 in Ok (Py_tuple [x; row])
  | _ => Err (TypeError "forward() takes 1 positional argument")
  end.

Definition scaler_module : PhysicalOperator :=
  {| inputs := ["x0"]; outputs := ["y1"]; transform := identity |}.

Definition classifier_module : PhysicalOperator :=
  {| inputs := ["y1"]; outputs := ["y2"; "p0"]; transform := with_first_row |}.

Definition operator_map : gmap string PhysicalOperator :=
  <["scaler" := scaler_module]> (<["classifier" := classifier_module]> ∅).

(** One input [x0], one output [y1 = x0]. *)
Definition one_input (flag : option bool) : Executor :=
  {| _input_names := ["x0"];
     _output_names := ["y1"];
     _operators := [scaler_module];
     max_string_length := None;
     check_dataframe_to_array := flag |}.

(** Two inputs [a], [b] handed back in the order [b], [a]. *)
Definition two_inputs (flag : option bool) : Executor :=
  {| _input_names := ["a"; "b"];
     _output_names := ["b"; "a"];
     _operators := [];
     max_string_length := None;
     check_dataframe_to_array := flag |}.

(** Outputs declared as [p0], [y2]; the classifier yields [y2], [p0]. *)
Definition swapped_outputs : Executor :=
  {| _input_names := ["x0"];
     _output_names := ["p0"; "y2"];
     _operators := [scaler_module; classifier_module];
     max_string_length := None;
     check_dataframe_to_array := None |}.

Definition world : World := {| stdout := []; grad_enabled := true |}.

Definition vector (d : Np.dtype) (xs : list Np.scalar) : Np.ndarray :=
  Np.fresh d [length xs] xs.

Definition doubles (zs : list Z) : Np.ndarray :=
  vector Np.float64 (List.map (fun z => Np.Float (IEEE.b64_of_Z z)) zs).

Definition singles (zs : list Z) : Np.ndarray :=
  vector Np.float32 (List.map (fun z => Np.Float (IEEE.b32_of_b64 (IEEE.b64_of_Z z))) zs).

Definition instants (u : Np.time_unit) (ts : list Z) : Np.ndarray :=
  vector (Np.datetime64 u) (List.map Np.Ticks ts).

Definition frame (cols : list (string * Np.ndarray)) : Pd.DataFrame :=
  {| Pd.series := List.map (fun c => {| Pd.name := fst c; Pd.values := snd c |}) cols |}.

Definition two_columns : Pd.DataFrame :=
  frame [("c", doubles [1; 2]); ("d", doubles [3; 4])]%Z.

Definition one_column : Pd.DataFrame := frame [("c", doubles [1; 2])]%Z.

Definition no_columns : Pd.DataFrame := frame [].

(** An instance of a subclass of [torch.Tensor]. *)
Definition parameter : pyobj :=
  Py_instance "Parameter"
    (Py_Tensor {| Torch.dtype_of := Torch.float32; Torch.shape := [1];
                  Torch.data := [Np.Float (IEEE.b32_of_b64 (IEEE.b64_of_Z 1))];
                  Torch.device_of := Torch.cpu |}).

(** An operator whose variables kept their raw names. *)
Definition plain : Naming.Operator :=
  {| Naming.op_full_name := "plain";
     Naming.inputs := [Naming.mkVar "x" "x"];
     Naming.outputs := [Naming.mkVar "y" "y"] |}.

(** What the constructor builds from the two stages. *)
Definition built : Executor :=
  {| _input_names := ["x0"];
     _output_names := ["y2"; "p0"];
     _operators := [scaler_module; classifier_module];
     max_string_length := None;
     check_dataframe_to_array := None |}.

(** The classifier alone: [y1] is read and never bound. *)
Definition dangling : Executor :=
  {| _input_names := ["x0"];
     _output_names := ["y2"];
     _operators := [classifier_module];
     max_string_length := None;
     check_dataframe_to_array := None |}.

(** An output name no operator writes. *)
Definition unproduced : Executor :=
  {| _input_names := ["x0"];
     _output_names := ["y1"; "zz"];
     _operators := [scaler_module];
     max_string_length := None;
     check_dataframe_to_array := None |}.

Definition words : Np.ndarray := vector (Np.str_ 3) [Np.Text "abc"; Np.Text "de"].

Definition cuda : Torch.device := {| Torch.type := "cuda"; Torch.index := Some 0 |}.

(** The same environment with the model's parameters on a GPU. *)
Definition ext_cuda : External := {|
  pandas_installed := true;
  SUPPORTED_STRING_TYPES := ["S"; "U"]%char;
  MAX_STRING_LENGTH := "max_string_length";
  from_strings_to_ints := strings_to_ints;
  get_device := fun _ => Some cuda;
  datetime_overflow := fun u v t => Ok (Np.wrap64 (Np.exact_ticks u v t));
  np_array := array_of_list;
  frame_to_numpy := frame_array
|}.

End Sample.

(** * Properties of the name resolver *)

Module NamingFacts.
Import Naming.

Lemma first_named_Some name vars v :
  first_named name vars = Some v -> v ∈ vars /\ raw_name v = name.
Proof.
  unfold first_named. intros H. apply find_some in H as [Hin Heq].
  split; [by apply list_elem_of_In | by apply String.eqb_eq].
Qed.

Lemma first_named_None name vars :
  first_named name vars = None <-> (forall v, v ∈ vars -> raw_name v <> name).
Proof.
  unfold first_named. split.
  - intros H v Hin Heq.
    assert (String.eqb (raw_name v) name = false) as E
      by (apply (find_none _ _ H v); by apply list_elem_of_In).
    by apply String.eqb_neq in E.
  - intros H. induction vars as [|v vars IH]; [done |]. simpl.
    destruct (String.eqb (raw_name v) name) eqn:E.
    + apply String.eqb_eq in E. exfalso. apply (H v); [left | done].
    + apply IH. intros v' Hin. apply H. by right.
Qed.

Lemma first_named_app name xs ys :
  first_named name (xs ++ ys)
  = match first_named name xs with
    | Some v => Some v
    | None => first_named name ys
    end.
Proof.
  unfold first_named. induction xs as [|x xs IH]; [done |]. simpl.
  by destruct (String.eqb (raw_name x) name).
Qed.

(** The loop over [names] inserts at most once, and only a raw name
    that is declared and not yet in the map. *)
Lemma scan_names_spec i names (map : gmap string string) :
  scan_names i names map
  = if decide (raw_name i ∈ names /\ map !! raw_name i = None)
    then <[raw_name i := full_name i]> map else map.
Proof.
  unfold scan_names. revert map.
  induction names as [|name names IH]; intros map; cbn [foldl].
  - rewrite decide_False; [done |]. intros [H _]. by apply elem_of_nil in H.
  - rewrite IH. clear IH.
    destruct (decide (raw_name i = name /\ map !! name = None)) as [[-> Hnone]|Hno].
    + rewrite lookup_insert_eq.
      rewrite decide_False by (intros [_ ?]; done).
      rewrite decide_True; [done |]. split; [left | done].
    + destruct (decide (raw_name i ∈ names /\ map !! raw_name i = None)) as [[Hin Hn]|Hn].
      * rewrite decide_True; [done |]. split; [by right | done].
      * rewrite decide_False; [done |].
        intros [Hin Hnone]. apply elem_of_cons in Hin as [Heq | Hin].
        -- apply Hno. split; [done | by rewrite <- Heq].
        -- apply Hn. by split.
Qed.

(** What a scan over a run of variables leaves under each key. *)
Lemma scan_iter_lookup names vars (map : gmap string string) n :
  scan_iter names vars map !! n
  = match map !! n with
    | Some f => Some f
    | None => if decide (n ∈ names) then full_name <$> first_named n vars else None
    end.
Proof.
  unfold scan_iter. revert map.
  induction vars as [|v vars IH]; intros map; simpl.
  - destruct (map !! n); [done |]. by case_decide.
  - rewrite IH, scan_names_spec. clear IH.
    destruct (String.eqb (raw_name v) n) eqn:E.
    + apply String.eqb_eq in E. subst n.
      destruct (map !! raw_name v) as [f|] eqn:Hm.
      * rewrite decide_False by (intros [_ ?]; done). by rewrite Hm.
      * destruct (decide (raw_name v ∈ names)) as [Hin|Hin].
        -- rewrite decide_True by done. by rewrite lookup_insert_eq.
        -- rewrite decide_False by (intros [? _]; done). by rewrite Hm.
    + apply String.eqb_neq in E.
      case_decide; [| done]. by rewrite lookup_insert_ne.
Qed.

Lemma scan_all_visited mod_ names operators (map : gmap string string) :
  scan_all mod_ names operators map = scan_iter names (visited mod_ operators) map.
Proof.
  unfold scan_all, visited, scan_iter. revert map.
  induction operators as [|op operators IH]; intros map; simpl; [done |].
  by rewrite foldl_app, IH.
Qed.

(** Keys of the map are declared names. *)
Definition keys_declared (names : list string) (map : gmap string string) : Prop :=
  forall k, is_Some (map !! k) -> k ∈ names.

Lemma scan_iter_keys names vars map :
  keys_declared names map -> keys_declared names (scan_iter names vars map).
Proof.
  intros Hk k. rewrite scan_iter_lookup.
  destruct (map !! k) eqn:Hm.
  - intros _. apply Hk. by rewrite Hm.
  - case_decide; [done |]. by intros [? ?].
Qed.

Lemma size_list_to_set_le (l : list string) :
  size (list_to_set l : gset string) <= length l.
Proof.
  induction l as [|x l IH].
  - rewrite list_to_set_nil, size_empty. simpl. lia.
  - rewrite list_to_set_cons, size_union_alt, size_singleton. cbn [length].
    assert (size (list_to_set l ∖ {[x]} : gset string) <= size (list_to_set l : gset string))
      as Hle.
    { apply subseteq_size. intros y Hy. by apply elem_of_difference in Hy as [? _]. }
    lia.
Qed.

(** Once the map is as large as the declared list, every declared
    name is in it. *)
Lemma full_map_resolves names (map : gmap string string) :
  keys_declared names map -> size map = length names ->
  forall n, n ∈ names -> is_Some (map !! n).
Proof.
  intros Hk Hsize n Hin.
  assert (dom map = list_to_set names :> gset string) as Hdom.
  { apply set_subseteq_size_eq.
    - intros k Hkd. apply elem_of_dom in Hkd. apply elem_of_list_to_set. by apply Hk.
    - rewrite size_dom, Hsize. apply size_list_to_set_le. }
  apply elem_of_dom. rewrite Hdom. by apply elem_of_list_to_set.
Qed.

Lemma scan_iter_full names vars (map : gmap string string) :
  keys_declared names map -> size map = length names ->
  scan_iter names vars map = map.
Proof.
  intros Hk Hsize. apply map_eq. intros n. rewrite scan_iter_lookup.
  destruct (map !! n) eqn:Hm; [done |].
  case_decide as Hin; [| done].
  destruct (full_map_resolves names map Hk Hsize n Hin) as [f Hf]. congruence.
Qed.

(** The early [break] changes nothing: the scan that stops and the
    scan that goes on build the same map. *)
Lemma scan_operators_all mod_ names operators (map : gmap string string) :
  keys_declared names map ->
  scan_operators mod_ names operators map = scan_all mod_ names operators map.
Proof.
  revert map. induction operators as [|op operators IH]; intros map Hk; simpl; [done |].
  pose proof (scan_iter_keys names (side mod_ op) map Hk) as Hk'.
  destruct (Nat.eqb _ _) eqn:E.
  - apply Nat.eqb_eq in E.
    change (foldl _ (scan_iter names (side mod_ op) map) operators)
      with (scan_all mod_ names operators (scan_iter names (side mod_ op) map)).
    rewrite scan_all_visited.
    by rewrite (scan_iter_full names _ (scan_iter names (side mod_ op) map)).
  - by apply IH.
Qed.

Lemma keys_declared_empty names : keys_declared names ∅.
Proof. intros k [f Hf]. by rewrite lookup_empty in Hf. Qed.

(** The map [_fix_var_naming] builds: each declared name is sent to
    the full name of the first visited variable with that raw name. *)
Lemma scan_operators_lookup mod_ names operators n :
  scan_operators mod_ names operators ∅ !! n
  = if decide (n ∈ names) then full_name <$> first_named n (visited mod_ operators)
    else None.
Proof.
  rewrite scan_operators_all by apply keys_declared_empty.
  by rewrite scan_all_visited, scan_iter_lookup, lookup_empty.
Qed.

(** [[map[name] for name in names]] stops at the first declared name
    missing from the map. *)
Lemma mapR_getitem_cases {A : Type} (map : gmap string A) names :
  (exists new_names,
      mapR (getitem map) names = Ok new_names
      /\ length new_names = length names
      /\ forall i n, names !! i = Some n -> new_names !! i = map !! n /\ is_Some (map !! n))
  \/ (exists pre n post,
         names = pre ++ n :: post
         /\ (forall k, k ∈ pre -> is_Some (map !! k))
         /\ map !! n = None
         /\ mapR (getitem map) names = Err (KeyError n)).
Proof.
  induction names as [|name names IH]; simpl.
  - left. exists []. split; [done |]. split; [done |].
    intros i n H. by rewrite lookup_nil in H.
  - unfold getitem at 1 3. destruct (map !! name) as [f|] eqn:Hm; simpl.
    + destruct IH as [(new_names & -> & Hlen & Hall) | (pre & n & post & -> & Hpre & Hn & ->)];
        simpl.
      * left. exists (f :: new_names). split; [done |]. split; [by rewrite <- Hlen |].
        intros [|i] n H; simpl in *.
        -- injection H as <-. rewrite Hm. eauto.
        -- by apply Hall.
      * right. exists (name :: pre), n, post. repeat split; try done.
        intros k Hk. apply elem_of_cons in Hk as [-> | Hk]; [by rewrite Hm | by apply Hpre].
    + right. exists [], name, names. repeat split; try done.
      intros k Hk. by apply elem_of_nil in Hk.
Qed.

End NamingFacts.

Section ResolverClaims.

Context `{Ext : External}.
Import Naming NamingFacts.

(** Whatever the resolver raises, the constructor raises. *)
Lemma init_input_error input_names output_names operator_map operators extra_config e :
  _fix_var_naming operators input_names Input = Err e ->
  __init__ input_names output_names operator_map operators extra_config = Err e.
Proof. unfold __init__. by intros ->. Qed.

Lemma init_output_error input_names output_names operator_map operators extra_config ins e :
  _fix_var_naming operators input_names Input = Ok ins ->
  _fix_var_naming (rev operators) output_names Output = Err e ->
  __init__ input_names output_names operator_map operators extra_config = Err e.
Proof. unfold __init__. by intros -> ->. Qed.

Lemma init_output_names input_names output_names operator_map operators extra_config self :
  __init__ input_names output_names operator_map operators extra_config = Ok self ->
  _fix_var_naming (rev operators) output_names Output = Ok (_output_names self).
Proof.
  unfold __init__. intros H.
  destruct (_fix_var_naming operators input_names Input); [| done].
  destruct (_fix_var_naming (rev operators) output_names Output); [| done].
  simpl in H. destruct (mapR _ operators); [| done].
  simpl in H. by injection H as <-.
Qed.

(** The two ways out of the resolver: the fallback, and the lookup
    of the first declared name the scan left out. *)
Lemma resolver_cases operators names mod_ :
  ((forall v, v ∈ visited mod_ operators -> raw_name v ∉ names) ->
   _fix_var_naming operators names mod_ = Ok names)
  /\ (forall v n,
         v ∈ visited mod_ operators -> raw_name v ∈ names ->
         n ∈ names -> (forall v', v' ∈ visited mod_ operators -> raw_name v' <> n) ->
         exists pre n' post,
           names = pre ++ n' :: post
           /\ (forall k, k ∈ pre -> exists v', v' ∈ visited mod_ operators /\ raw_name v' = k)
           /\ (forall v', v' ∈ visited mod_ operators -> raw_name v' <> n')
           /\ _fix_var_naming operators names mod_ = Err (KeyError n')).
Proof.
  split.
  - intros Hnone. unfold _fix_var_naming. cbv zeta.
    rewrite decide_True; [done |].
    apply map_eq. intros n. rewrite scan_operators_lookup, lookup_empty.
    case_decide as Hin; [| done].
    replace (first_named n (visited mod_ operators)) with (@None Var); [done |].
    symmetry. apply first_named_None. intros v Hv Heq. apply (Hnone v Hv). by rewrite Heq.
  - intros v n Hv Hvn Hn Hnever. unfold _fix_var_naming. cbv zeta.
    set (map := scan_operators mod_ names operators ∅).
    assert (forall k, k ∈ names ->
              map !! k = full_name <$> first_named k (visited mod_ operators)) as Hmap.
    { intros k Hk. unfold map. rewrite scan_operators_lookup. by rewrite decide_True. }
    rewrite decide_False.
    2:{ intros Hempty. specialize (Hmap _ Hvn). rewrite Hempty, lookup_empty in Hmap.
        destruct (first_named (raw_name v) (visited mod_ operators)) eqn:E; [done |].
        by apply (proj1 (first_named_None _ _) E v). }
    destruct (mapR_getitem_cases map names)
      as [(new_names & _ & _ & Hall) | (pre & n' & post & Hsplit & Hpre & Hn' & Herr)].
    + exfalso. apply list_elem_of_lookup in Hn as [i Hi].
      destruct (Hall i n Hi) as [_ [f Hf]].
      rewrite (Hmap n) in Hf by (apply list_elem_of_lookup; eauto).
      replace (first_named n (visited mod_ operators)) with (@None Var) in Hf; [done |].
      symmetry. by apply first_named_None.
    + exists pre, n', post. split; [done |]. split; [| split; [| done]].
      * intros k Hk. destruct (Hpre k Hk) as [f Hf].
        rewrite Hmap in Hf by (rewrite Hsplit; apply elem_of_app; by left).
        destruct (first_named k (visited mod_ operators)) as [v'|] eqn:E; [| done].
        exists v'. by apply first_named_Some.
      * apply first_named_None.
        rewrite Hmap in Hn' by (rewrite Hsplit; apply elem_of_app; right; left).
        by destruct (first_named n' (visited mod_ operators)).
Qed.

(** C4.  The resolver on any operator sequence, declared name list
    and side: when no visited variable carries a declared raw name,
    the declared names come back unchanged; when some declared name
    is matched and some declared name is matched by no visited
    variable, the resolver raises the missing-key error for the first
    declared name without a match, every name before it having one,
    and the constructor fails with that error, on the input side and,
    inputs resolved, on the output side. *)
Theorem fix_var_naming_fallback_or_missing_key operators names mod_ :
  ((forall v, v ∈ visited mod_ operators -> raw_name v ∉ names) ->
   _fix_var_naming operators names mod_ = Ok names)
  /\ (forall v n,
         v ∈ visited mod_ operators -> raw_name v ∈ names ->
         n ∈ names -> (forall v', v' ∈ visited mod_ operators -> raw_name v' <> n) ->
         exists pre n' post,
           names = pre ++ n' :: post
           /\ (forall k, k ∈ pre -> exists v', v' ∈ visited mod_ operators /\ raw_name v' = k)
           /\ (forall v', v' ∈ visited mod_ operators -> raw_name v' <> n')
           /\ _fix_var_naming operators names mod_ = Err (KeyError n')
           /\ (mod_ = Input ->
               forall output_names operator_map extra_config,
                 __init__ names output_names operator_map operators extra_config
                 = Err (KeyError n'))
           /\ (mod_ = Output ->
               forall topology input_names ins operator_map extra_config,
                 operators = rev topology ->
                 _fix_var_naming topology input_names Input = Ok ins ->
                 __init__ input_names names operator_map topology extra_config
                 = Err (KeyError n'))).
Proof.
  destruct (resolver_cases operators names mod_) as [Hfallback Hmissing].
  split; [exact Hfallback |].
  intros v n Hv Hvn Hn Hnever.
  destruct (Hmissing v n Hv Hvn Hn Hnever) as (pre & n' & post & Hsplit & Hpre & Hn' & Herr).
  exists pre, n', post. repeat split; try done.
  - intros -> output_names operator_map extra_config. by apply init_input_error.
  - intros -> topology input_names ins operator_map extra_config -> Hins.
    by apply (init_output_error _ _ _ _ _ ins).
Qed.

Lemma visited_rev mod_ operators v :
  v ∈ visited mod_ (rev operators) <-> v ∈ visited mod_ operators.
Proof.
  unfold visited. rewrite !list_elem_of_In, !in_concat. split.
  - intros (vars & Hvars & Hv). exists vars. split; [| done].
    apply in_map_iff in Hvars as (op & <- & Hop). apply in_map. by apply in_rev.
  - intros (vars & Hvars & Hv). exists vars. split; [| done].
    apply in_map_iff in Hvars as (op & <- & Hop). apply in_map. by apply in_rev in Hop.
Qed.

(** With every declared name carried by a visited variable the resolver
    returns, each name replaced by what the map holds for it. *)
Lemma resolver_returns operators names mod_ :
  (forall n, n ∈ names -> exists v, v ∈ visited mod_ operators /\ raw_name v = n) ->
  exists new_names,
    _fix_var_naming operators names mod_ = Ok new_names
    /\ forall i n, names !! i = Some n ->
         new_names !! i = scan_operators mod_ names operators ∅ !! n.
Proof.
  intros Hall.
  assert (forall n, n ∈ names -> is_Some (scan_operators mod_ names operators ∅ !! n))
    as Hmap.
  { intros n Hn. rewrite scan_operators_lookup, decide_True by done.
    destruct (first_named n (visited mod_ operators)) as [v|] eqn:E; [by eexists |].
    destruct (Hall n Hn) as (v & Hv & Heq).
    by destruct (proj1 (first_named_None _ _) E v Hv). }
  unfold _fix_var_naming. cbv zeta. case_decide as Hempty.
  - exists names. split; [done |]. intros i n Hi.
    destruct (Hmap n) as [f Hf]; [apply list_elem_of_lookup; eauto |].
    by rewrite Hempty, lookup_empty in Hf.
  - destruct (mapR_getitem_cases (scan_operators mod_ names operators ∅) names)
      as [(new_names & Hok & _ & Hlook) | (pre & n' & post & Hsplit & _ & Hn' & _)].
    + exists new_names. split; [done |]. intros i n Hi. by destruct (Hlook i n Hi).
    + destruct (Hmap n') as [f Hf]; [rewrite Hsplit; apply elem_of_app; right; left |].
      congruence.
Qed.

(** The constructor returns once both name lists are resolved and the
    operator map holds every operator. *)
Lemma init_returns input_names output_names operator_map operators extra_config ins outs :
  _fix_var_naming operators input_names Input = Ok ins ->
  _fix_var_naming (rev operators) output_names Output = Ok outs ->
  (forall op, op ∈ operators -> is_Some (operator_map !! op_full_name op)) ->
  exists self,
    __init__ input_names output_names operator_map operators extra_config = Ok self
    /\ _input_names self = ins
    /\ _output_names self = outs.
Proof.
  intros Hins Houts Hops. unfold __init__. rewrite Hins, Houts. simpl.
  assert (exists ops, mapR (fun operator => getitem operator_map (op_full_name operator))
                           operators = Ok ops) as [ops ->].
  { clear Hins Houts. induction operators as [|op operators IH]; simpl; [by eexists |].
    destruct (Hops op) as [m Hm]; [left |]. unfold getitem at 1. rewrite Hm. simpl.
    destruct IH as [ops ->]; [intros op' Hop'; apply Hops; by right |]. simpl. by eexists. }
  simpl. by eexists.
Qed.

(** C6.  The constructor resolves output names over the reversed
    operator sequence: when [operator] is the last operator in
    topological order with an output of raw name [n], and the
    constructor's other lookups succeed (the input names resolve, every
    declared output name is the raw name of some operator's output,
    the operator map holds every operator), the constructor returns an
    executor in whose output names the full name that [operator]
    declares stands at the positions of [n], whatever earlier operators
    declare for it. *)
Theorem output_names_follow_last_producer
    input_names output_names operator_map extra_config
    earlier operator later v n ins :
  first_named n (Naming.outputs operator) = Some v ->
  (forall op v', op ∈ later -> v' ∈ Naming.outputs op -> raw_name v' <> n) ->
  n ∈ output_names ->
  let operators := earlier ++ operator :: later in
  _fix_var_naming operators input_names Input = Ok ins ->
  (forall n', n' ∈ output_names ->
     exists v', v' ∈ visited Output operators /\ raw_name v' = n') ->
  (forall op, op ∈ operators -> is_Some (operator_map !! op_full_name op)) ->
  exists self,
    __init__ input_names output_names operator_map operators extra_config = Ok self
    /\ _input_names self = ins
    /\ forall i, output_names !! i = Some n ->
         _output_names self !! i = Some (full_name v).
Proof.
  intros Hv Hlater Hn operators Hins Hall Hops.
  assert (scan_operators Output output_names (rev operators) ∅ !! n = Some (full_name v))
    as Hrec.
  { rewrite scan_operators_lookup, decide_True by done.
    unfold operators, visited. rewrite rev_app_distr. simpl.
    rewrite <- app_assoc, map_app, concat_app, first_named_app.
    replace (first_named n (concat (List.map (side Output) (rev later)))) with (@None Var).
    - simpl. rewrite first_named_app. by rewrite Hv.
    - symmetry. apply first_named_None. intros v' Hin.
      apply list_elem_of_In, in_concat in Hin as (vars & Hvars & Hv').
      apply in_map_iff in Hvars as (op & <- & Hop).
      apply (Hlater op v'); [| by apply list_elem_of_In].
      by apply list_elem_of_In, in_rev. }
  destruct (resolver_returns (rev operators) output_names Output) as (outs & Houts & Hlook).
  { intros n' Hn'. destruct (Hall n' Hn') as (v' & Hv' & Heq).
    exists v'. split; [by apply visited_rev | done]. }
  destruct (init_returns input_names output_names operator_map operators extra_config
              ins outs Hins Houts Hops) as (self & Hinit & Hi & Ho).
  exists self. split; [done |]. split; [done |].
  intros i Hi'. by rewrite Ho, (Hlook i n Hi').
Qed.

End ResolverClaims.

(** Membership of a literal in a literal list that does not hold it. *)
Ltac no_member H :=
  repeat (apply elem_of_cons in H as [H | H]; [discriminate H |]);
  by apply elem_of_nil in H.

Lemma fix_var_naming_fallback_or_missing_key_witness :
  Naming._fix_var_naming [Sample.scaler; Sample.classifier] ["q"; "zz"] Naming.Input
  = Ok ["q"; "zz"]
  /\ Naming._fix_var_naming [Sample.scaler; Sample.classifier] ["x"; "zz"] Naming.Input
     = Err (KeyError "zz")
  /\ __init__ (Ext := Sample.ext) ["x"; "zz"] ["y"] Sample.operator_map
       [Sample.scaler; Sample.classifier] ∅
     = Err (KeyError "zz").
Proof.
  split.
  - apply (proj1 (fix_var_naming_fallback_or_missing_key (Ext := Sample.ext)
                    [Sample.scaler; Sample.classifier] ["q"; "zz"] Naming.Input)).
    intros v Hv Hin. vm_compute in Hv.
    apply elem_of_cons in Hv as [-> | Hv]; [| apply elem_of_cons in Hv as [-> | Hv]].
    + no_member Hin.
    + no_member Hin.
    + by apply elem_of_nil in Hv.
  - destruct (proj2 (fix_var_naming_fallback_or_missing_key (Ext := Sample.ext)
                       [Sample.scaler; Sample.classifier] ["x"; "zz"] Naming.Input)
                (Naming.mkVar "x" "x0") "zz")
      as (pre & n' & post & Hsplit & Hpre & Hn' & Herr & Hinit & _).
    + vm_compute. left.
    + vm_compute. left.
    + vm_compute. right. left.
    + intros v Hv Heq. vm_compute in Hv.
      apply elem_of_cons in Hv as [-> | Hv]; [| apply elem_of_cons in Hv as [-> | Hv]].
      * vm_compute in Heq. discriminate.
      * vm_compute in Heq. discriminate.
      * by apply elem_of_nil in Hv.
    + assert (n' = "zz") as ->.
      { pose proof Herr as Hrun. vm_compute in Hrun. by injection Hrun as <-. }
      split; [exact Herr | by apply Hinit].
Defined.

Lemma output_names_follow_last_producer_witness :
  exists self,
    __init__ (Ext := Sample.ext) ["x"] ["y"; "p"] Sample.operator_map
      ([Sample.scaler] ++ Sample.classifier :: []) ∅ = Ok self
    /\ _input_names self = ["x0"]
    /\ forall i, ["y"; "p"] !! i = Some "y" -> _output_names self !! i = Some "y2".
Proof.
  apply (output_names_follow_last_producer (Ext := Sample.ext)
           ["x"] ["y"; "p"] Sample.operator_map ∅
           [Sample.scaler] Sample.classifier [] (Naming.mkVar "y" "y2") "y" ["x0"]).
  - reflexivity.
  - intros op v' Hop. by apply elem_of_nil in Hop.
  - left.
  - vm_compute. reflexivity.
  - intros n' Hn'. apply elem_of_cons in Hn' as [-> | Hn'].
    + exists (Naming.mkVar "y" "y1"). split; [left | reflexivity].
    + apply elem_of_cons in Hn' as [-> | Hn']; [| by apply elem_of_nil in Hn'].
      exists (Naming.mkVar "p" "p0"). split; [right; right; left | reflexivity].
  - intros op Hop. apply elem_of_cons in Hop as [-> | Hop].
    + exists Sample.scaler_module. vm_compute. reflexivity.
    + apply elem_of_cons in Hop as [-> | Hop]; [| by apply elem_of_nil in Hop].
      exists Sample.classifier_module. vm_compute. reflexivity.
Defined.

(** * Properties of [forward] *)

Section ForwardFacts.

Context `{Ext : External}.

(** The value [forward] returns is that of its pure core. *)
Lemma forward_value self inputs w :
  fst (forward self inputs w)
  = (let* variable_map := final_map self inputs in assemble self variable_map).
Proof.
  unfold forward, no_grad. simpl.
  by destruct (final_map self inputs).
Qed.

(** The gradient mode found at entry is back at every exit. *)
Lemma forward_restores_grad_mode self inputs w :
  grad_enabled (snd (forward self inputs w)) = grad_enabled w.
Proof.
  unfold forward, no_grad. simpl.
  by destruct (final_map self inputs).
Qed.

Lemma bind_inputs_other self device names k inputs vm0 vm name :
  bind_inputs self device names k inputs vm0 = Ok vm ->
  name ∉ names -> vm !! name = vm0 !! name.
Proof.
  revert k vm0. induction names as [|n names IH]; intros k vm0 H Hnot; simpl in H.
  - by injection H as <-.
  - destruct (nth_error inputs k); [| done]. simpl in H.
    destruct (normalize self device n p); [| done]. simpl in H.
    rewrite (IH _ _ H) by (intros ?; apply Hnot; by right).
    apply lookup_insert_ne. intros ->. apply Hnot. left.
Qed.

(** The symbol table after the binding loop holds, under each input
    name, the normalised input of the last position with that name. *)
Lemma bind_inputs_lookup self device names k inputs vm0 vm i name :
  bind_inputs self device names k inputs vm0 = Ok vm ->
  names !! i = Some name ->
  (forall j, i < j -> names !! j <> Some name) ->
  exists x t,
    nth_error inputs (k + i) = Some x
    /\ normalize self device name x = Ok t
    /\ vm !! name = Some (Py_Tensor t).
Proof.
  revert k vm0 i. induction names as [|n names IH]; intros k vm0 i H Hi Hlast.
  - by rewrite lookup_nil in Hi.
  - simpl in H. destruct (nth_error inputs k) as [x|] eqn:Hx; [| done]. simpl in H.
    destruct (normalize self device n x) as [t|] eqn:Ht; [| done]. simpl in H.
    destruct i as [|i]; simpl in Hi.
    + injection Hi as ->. exists x, t. rewrite Nat.add_0_r. repeat split; try done.
      rewrite (bind_inputs_other _ _ _ _ _ _ _ _ H).
      * apply lookup_insert_eq.
      * intros Hin. apply list_elem_of_lookup in Hin as [j Hj].
        apply (Hlast (S j)); [lia | done].
    + destruct (IH (S k) _ i H Hi) as (x' & t' & Hx' & Ht' & Hvm).
      * intros j Hj. apply (Hlast (S j)). lia.
      * exists x', t'. replace (k + S i) with (S k + i) by lia. done.
Qed.

(** The binding loop stops at the first input that fails to
    normalise, with that input's exception. *)
Lemma bind_inputs_error self device names k inputs vm0 i name x e :
  names !! i = Some name ->
  nth_error inputs (k + i) = Some x ->
  normalize self device name x = Err e ->
  (forall j nm, j < i -> names !! j = Some nm ->
     exists y t, nth_error inputs (k + j) = Some y /\ normalize self device nm y = Ok t) ->
  bind_inputs self device names k inputs vm0 = Err e.
Proof.
  revert k vm0 i. induction names as [|n names IH]; intros k vm0 i Hi Hx He Hbefore.
  - by rewrite lookup_nil in Hi.
  - simpl. destruct i as [|i]; simpl in Hi.
    + injection Hi as ->. rewrite Nat.add_0_r in Hx. by rewrite Hx; simpl; rewrite He.
    + destruct (Hbefore 0 n) as (y & t & Hy & Ht); [lia | done |].
      rewrite Nat.add_0_r in Hy. rewrite Hy. simpl. rewrite Ht. simpl.
      apply (IH (S k) _ i); try done.
      * by replace (S k + i) with (k + S i) by lia.
      * intros j nm Hj Hnm. destruct (Hbefore (S j) nm) as (y' & t' & Hy' & Ht'); [lia | done |].
        exists y', t'. by replace (S k + j) with (k + S j) by lia.
Qed.

(** With pairwise distinct labels, selecting a column's label gives
    back that column alone. *)
Lemma select_unique df c :
  NoDup (Pd.columns df) -> c ∈ Pd.series df -> Pd.select df (Pd.name c) = [c].
Proof.
  unfold Pd.select, Pd.columns. destruct df as [cols]. simpl.
  induction cols as [|c0 cols IH]; intros Hnd Hin; [by apply elem_of_nil in Hin |].
  simpl in Hnd. apply NoDup_cons in Hnd as [Hfresh Hnd]. simpl.
  assert (forall c', Pd.name c' = Pd.name c0 -> c' ∉ cols) as Hother.
  { intros c' Heq Hc'. apply Hfresh. rewrite <- Heq.
    apply list_elem_of_In, in_map, list_elem_of_In, Hc'. }
  apply elem_of_cons in Hin as [-> | Hin].
  - rewrite String.eqb_refl. f_equal.
    clear IH Hnd Hfresh. induction cols as [|c1 cols IH]; [done |]. simpl.
    destruct (String.eqb (Pd.name c1) (Pd.name c0)) eqn:E.
    + apply String.eqb_eq in E. exfalso. apply (Hother c1 E). left.
    + apply IH. intros c' Heq Hc'. apply (Hother c' Heq). by right.
  - destruct (String.eqb (Pd.name c0) (Pd.name c)) eqn:E.
    + apply String.eqb_eq in E. exfalso. by apply (Hother c).
    + by apply IH.
Qed.

Lemma split_frame_distinct df :
  NoDup (Pd.columns df) ->
  split_frame df
  = List.map (fun c => Py_ndarray (Np.reshape_column (Pd.values c))) (Pd.series df).
Proof.
  intros Hnd. unfold split_frame, Pd.columns. rewrite !List.map_map.
  apply map_ext_in. intros c Hc.
  rewrite (select_unique df c Hnd) by (by apply list_elem_of_In). done.
Qed.

(** What the seeded symbol table holds under an input name. *)
Lemma seed_binds self inputs ins vm i name x :
  seed self inputs = Ok vm ->
  input_list inputs = Ok ins ->
  nth_error ins i = Some x ->
  _input_names self !! i = Some name ->
  (forall j, i < j -> _input_names self !! j <> Some name) ->
  exists t, normalize self (get_device self) name x = Ok t
            /\ vm !! name = Some (Py_Tensor t).
Proof.
  unfold seed. intros Hseed Hins Hx Hname Hlast.
  destruct (check_arity self inputs); [| done]. rewrite Hins in Hseed. simpl in Hseed.
  destruct (bind_inputs_lookup _ _ _ _ _ _ _ _ _ Hseed Hname Hlast) as (x' & t & Hx' & Ht & Hvm).
  simpl in Hx'. rewrite Hx in Hx'. injection Hx' as <-. eauto.
Qed.

Lemma place_keeps device t :
  Torch.dtype_of (place device t) = Torch.dtype_of t
  /\ Torch.shape (place device t) = Torch.shape t
  /\ Torch.data (place device t) = Torch.data t.
Proof.
  unfold place. destruct device as [d|]; [| done].
  by destruct (negb (String.eqb (Torch.type d) "cpu")).
Qed.

Lemma proper_subclass_is_instance x cls :
  proper_subclass_instance x cls -> exists c base, x = Py_instance c base.
Proof.
  unfold proper_subclass_instance, isinstance. intros [Hne Hsub].
  destruct x; simpl in *; try (by case_decide); eauto.
Qed.

(** [type(x) is list], [type(x) is np.ndarray], [type(x) is
    torch.Tensor] single out one constructor each. *)
Lemma type_is_list x : type_of x = Ty_list <-> exists items, x = Py_list items.
Proof. split; [destruct x; try done; eauto | by intros [? ->]]. Qed.

Lemma type_is_ndarray x : type_of x = Ty_ndarray <-> exists a, x = Py_ndarray a.
Proof. split; [destruct x; try done; eauto | by intros [? ->]]. Qed.

Lemma type_is_Tensor x : type_of x = Ty_Tensor <-> exists t, x = Py_Tensor t.
Proof. split; [destruct x; try done; eauto | by intros [? ->]]. Qed.

End ForwardFacts.

Section ForwardClaims.

Context `{Ext : External}.
Import NamingFacts.

Lemma as_DataFrame_isinstance x df :
  as_DataFrame x = Some df -> isinstance x Ty_DataFrame = true.
Proof.
  unfold isinstance. induction x; simpl; done.
Qed.

(** C7.  A call that returns: with exactly one resolved output name
    the value returned is the one the final symbol table holds under
    that name; with more than one it is a tuple, as long as the list
    of output names, whose element [i] is the value the final symbol
    table holds under the [i]-th output name. *)
Theorem forward_returns_outputs_in_order self inputs w r :
  fst (forward self inputs w) = Ok r ->
  exists variable_map,
    final_map self inputs = Ok variable_map
    /\ (forall o, _output_names self = [o] -> variable_map !! o = Some r)
    /\ (1 < length (_output_names self) ->
        exists vs,
          r = Py_tuple vs
          /\ length vs = length (_output_names self)
          /\ forall i o, _output_names self !! i = Some o ->
               is_Some (vs !! i) /\ vs !! i = variable_map !! o).
Proof.
  rewrite forward_value. destruct (final_map self inputs) as [vm|]; [| done].
  simpl. intros Hr. exists vm. split; [done |]. unfold assemble in Hr. split.
  - intros o Ho. rewrite Ho in Hr. unfold getitem in Hr.
    destruct (vm !! o); [| done]. by injection Hr as ->.
  - intros Hlen.
    assert ((let* vs := mapR (getitem vm) (_output_names self) in Ok (Py_tuple vs)) = Ok r)
      as Hr'.
    { destruct (_output_names self) as [|o1 [|o2 names]]; simpl in Hlen; [lia | lia | done]. }
    clear Hr.
    destruct (mapR_getitem_cases vm (_output_names self))
      as [(vs & Hok & Hlen' & Hall) | (pre & n & post & _ & _ & _ & Herr)].
    + rewrite Hok in Hr'. simpl in Hr'. injection Hr' as <-.
      exists vs. split; [done |]. split; [done |].
      intros i o Hi. destruct (Hall i o Hi) as [-> Hsome]. done.
    + rewrite Herr in Hr'. done.
Qed.

Lemma dict_set_at l key v (h : gmap nat (gmap string pyobj)) vm :
  h !! l = Some vm -> dict_set l key v h = <[l := <[key := v]> vm]> h.
Proof. unfold dict_set. by intros ->. Qed.

Lemma dict_get_at l key (h : gmap nat (gmap string pyobj)) vm :
  h !! l = Some vm -> dict_get l key h = getitem vm key.
Proof. unfold dict_get. by intros ->. Qed.

Lemma mapR_ext {A B : Type} (f g : A -> Result B) (l : list A) :
  (forall x, f x = g x) -> mapR f l = mapR g l.
Proof.
  intros Hfg. induction l as [|x l IH]; simpl; [done |]. by rewrite Hfg, IH.
Qed.

(** The binding loop on the dictionary at [l] does to it what the loop
    does to the table it holds, and touches no other dictionary. *)
Lemma bind_inputs_in_spec self device names i inputs l
    (h : gmap nat (gmap string pyobj)) vm :
  h !! l = Some vm ->
  exists vm',
    bind_inputs_in self device names i inputs l h
    = (match bind_inputs self device names i inputs vm with
       | Ok _ => Ok tt
       | Err e => Err e
       end, <[l := vm']> h)
    /\ forall vm1, bind_inputs self device names i inputs vm = Ok vm1 -> vm' = vm1.
Proof.
  revert i h vm. induction names as [|n names IH]; intros i h vm Hl.
  - exists vm. simpl. rewrite insert_id by done. split; [done |]. by intros ? [= <-].
  - simpl. destruct (nth_error inputs i) as [x|]; simpl.
    + destruct (normalize self device n x) as [t|]; simpl.
      * rewrite (dict_set_at _ _ _ _ _ Hl).
        destruct (IH (S i) (<[l := <[n := Py_Tensor t]> vm]> h) (<[n := Py_Tensor t]> vm))
          as (vm' & Heq & Hvm); [apply lookup_insert_eq |].
        exists vm'. rewrite Heq, insert_insert_eq. done.
      * exists vm. rewrite insert_id by done. done.
    + exists vm. rewrite insert_id by done. done.
Qed.

Lemma bind_outputs_in_spec names i outs l (h : gmap nat (gmap string pyobj)) vm :
  h !! l = Some vm ->
  exists vm',
    bind_outputs_in names i outs l h
    = (match bind_outputs names i outs vm with
       | Ok _ => Ok tt
       | Err e => Err e
       end, <[l := vm']> h)
    /\ forall vm1, bind_outputs names i outs vm = Ok vm1 -> vm' = vm1.
Proof.
  revert i h vm. induction names as [|n names IH]; intros i h vm Hl.
  - exists vm. simpl. rewrite insert_id by done. split; [done |]. by intros ? [= <-].
  - simpl. destruct (subscript outs i) as [v|]; simpl.
    + rewrite (dict_set_at _ _ _ _ _ Hl).
      destruct (IH (S i) (<[l := <[n := v]> vm]> h) (<[n := v]> vm))
        as (vm' & Heq & Hvm); [apply lookup_insert_eq |].
      exists vm'. rewrite Heq, insert_insert_eq. done.
    + exists vm. rewrite insert_id by done. done.
Qed.

Lemma run_operator_in_spec operator l (h : gmap nat (gmap string pyobj)) vm :
  h !! l = Some vm ->
  exists vm',
    run_operator_in operator l h
    = (match run_operator operator vm with
       | Ok _ => Ok tt
       | Err e => Err e
       end, <[l := vm']> h)
    /\ forall vm1, run_operator operator vm = Ok vm1 -> vm' = vm1.
Proof.
  intros Hl. unfold run_operator_in, run_operator.
  rewrite (mapR_ext _ (getitem vm)) by (intros x; by apply dict_get_at).
  destruct (mapR (getitem vm) (inputs operator)) as [args|]; simpl.
  - destruct (transform operator args) as [outs|]; simpl.
    + destruct (outputs operator) as [|o [|o' names]].
      * by apply (bind_outputs_in_spec [] 0 outs l h vm).
      * exists (<[o := outs]> vm). rewrite (dict_set_at _ _ _ _ _ Hl).
        split; [done |]. by intros ? [= <-].
      * by apply (bind_outputs_in_spec (o :: o' :: names) 0 outs l h vm).
    + exists vm. rewrite insert_id by done. done.
  - exists vm. rewrite insert_id by done. done.
Qed.

Lemma run_operators_in_spec operators l (h : gmap nat (gmap string pyobj)) vm :
  h !! l = Some vm ->
  exists vm',
    run_operators_in operators l h
    = (match run_operators operators vm with
       | Ok _ => Ok tt
       | Err e => Err e
       end, <[l := vm']> h)
    /\ forall vm1, run_operators operators vm = Ok vm1 -> vm' = vm1.
Proof.
  revert h vm. induction operators as [|op operators IH]; intros h vm Hl.
  - exists vm. simpl. rewrite insert_id by done. split; [done |]. by intros ? [= <-].
  - simpl. destruct (run_operator_in_spec op l h vm Hl) as (vm1 & -> & Hvm1).
    destruct (run_operator op vm) as [vm2|]; simpl.
    + rewrite (Hvm1 vm2 eq_refl).
      destruct (IH (<[l := vm2]> h) vm2) as (vm' & -> & Hvm'); [apply lookup_insert_eq |].
      exists vm'. by rewrite insert_insert_eq.
    + exists vm1. done.
Qed.

Lemma assemble_in_spec self l (h : gmap nat (gmap string pyobj)) vm :
  h !! l = Some vm -> assemble_in self l h = assemble self vm.
Proof.
  intros Hl. unfold assemble_in, assemble.
  destruct (_output_names self) as [|o [|o' names]].
  - done.
  - by apply dict_get_at.
  - by rewrite (mapR_ext _ (getitem vm)) by (intros x; by apply dict_get_at).
Qed.

(** A call in a process with dictionaries [h] returns what [forward]
    returns, and leaves every dictionary of [h] as it was: all it
    writes goes to the dictionary it allocated. *)
Lemma forward_in_spec self given (h : gmap nat (gmap string pyobj)) w :
  fst (fst (forward_in self given h w)) = fst (forward self given w)
  /\ forall l d, h !! l = Some d -> snd (fst (forward_in self given h w)) !! l = Some d.
Proof.
  rewrite forward_value. unfold forward_in, no_grad, final_map, seed. simpl.
  destruct (check_arity self given); simpl; [| done].
  destruct (input_list given) as [ins|]; simpl; [| done].
  set (l := fresh (dom h)).
  assert (forall vm' l' d, h !! l' = Some d -> <[l := vm']> h !! l' = Some d) as Hkept.
  { intros vm' l' d Hd. rewrite lookup_insert_ne; [done |].
    intros <-. apply (is_fresh (dom h)). apply elem_of_dom. by eexists. }
  destruct (bind_inputs_in_spec self (get_device self) (_input_names self) 0 ins l
              (<[l := ∅]> h) ∅) as (vm1 & -> & Hvm1); [apply lookup_insert_eq |].
  rewrite insert_insert_eq.
  destruct (bind_inputs self (get_device self) (_input_names self) 0 ins ∅) as [vm|];
    simpl; [| split; [done | apply Hkept]].
  rewrite (Hvm1 vm eq_refl).
  destruct (run_operators_in_spec (_operators self) l (<[l := vm]> h) vm)
    as (vm2 & -> & Hvm2); [apply lookup_insert_eq |].
  rewrite insert_insert_eq.
  destruct (run_operators (_operators self) vm) as [vm3|]; simpl;
    [| split; [done | apply Hkept]].
  rewrite (Hvm2 vm3 eq_refl). split; [| apply Hkept].
  apply assemble_in_spec, lookup_insert_eq.
Qed.

(** C9.  Two calls with the same executor and the same inputs return
    the same value or raise the same exception, whatever dictionaries
    the process holds when each call starts, whatever was printed and
    whatever the gradient mode is: a call allocates its symbol table,
    reads and writes that dictionary alone and leaves the dictionaries
    of earlier calls as they were.  So does a second call made right
    after the first, the table of the first still in memory. *)
Theorem forward_calls_agree self given
    (h1 h2 : gmap nat (gmap string pyobj)) (w1 w2 : World) :
  fst (fst (forward_in self given h1 w1)) = fst (fst (forward_in self given h2 w2))
  /\ (forall l d, h1 !! l = Some d ->
        snd (fst (forward_in self given h1 w1)) !! l = Some d)
  /\ fst (fst (forward_in self given
                 (snd (fst (forward_in self given h1 w1)))
                 (snd (forward_in self given h1 w1))))
     = fst (fst (forward_in self given h1 w1)).
Proof.
  split; [| split].
  - rewrite (proj1 (forward_in_spec self given h1 w1)).
    rewrite (proj1 (forward_in_spec self given h2 w2)).
    by rewrite !forward_value.
  - apply forward_in_spec.
  - rewrite !(proj1 (forward_in_spec self given _ _)). by rewrite !forward_value.
Qed.

(** C5, as amended.  With N resolved input names, a call with N-1 or
    N+1 positional inputs, at least one, fails with the assertion
    error that carries the expected input names, before anything is
    bound, whenever the first input is not a DataFrame instance, or
    [check_dataframe_to_array] is set and true, or it is set and false
    and the frame's column count is not N. *)
Theorem forward_rejects_wrong_arity self first rest w :
  S (length (first :: rest)) = length (_input_names self)
  \/ length (first :: rest) = S (length (_input_names self)) ->
  isinstance first Ty_DataFrame = false
  \/ check_dataframe_to_array self = Some true
  \/ (check_dataframe_to_array self = Some false
      /\ forall df, as_DataFrame first = Some df ->
                    length (Pd.columns df) <> length (_input_names self)) ->
  seed self (first :: rest) = Err (arity_error self)
  /\ fst (forward self (first :: rest) w)
     = Err (AssertionError (Some (arity_message, _input_names self))).
Proof.
  intros Hlen Hcase.
  assert (check_arity self (first :: rest) = Err (arity_error self)) as Hcheck.
  { unfold check_arity.
    replace (Nat.eqb _ _) with false by (symmetry; apply Nat.eqb_neq; lia).
    destruct pandas_installed; simpl; [| done].
    destruct (isinstance first Ty_DataFrame) eqn:Hinst; simpl; [| done].
    destruct Hcase as [? | [-> | [-> Hcols]]]; [done | done |].
    destruct (as_DataFrame first) as [df|] eqn:Hdf.
    - replace (Nat.eqb _ _) with false; [done |].
      symmetry. apply Nat.eqb_neq. intros Heq. by apply (Hcols df).
    - exfalso. clear -Hinst Hdf. unfold isinstance in Hinst.
      induction first; simpl in *; try done. by apply IHfirst. }
  assert (seed self (first :: rest) = Err (arity_error self)) as Hseed
    by (unfold seed; by rewrite Hcheck).
  split; [done |].
  rewrite forward_value. unfold final_map. by rewrite Hseed.
Qed.

(** C3, as amended.  When the number of positional arguments equals
    the number of resolved input names and the first argument is a
    DataFrame instance, the assertion passes without reading
    [check_dataframe_to_array] or the column count, the other
    arguments are dropped and the binding loop runs over the frame's
    columns alone; with one input name and a frame of at least one
    column whose first label is not repeated, only the first column
    is bound. *)
Theorem frame_first_replaces_inputs self first rest df :
  pandas_installed = true ->
  as_DataFrame first = Some df ->
  length (first :: rest) = length (_input_names self) ->
  check_arity self (first :: rest) = Ok tt
  /\ input_list (first :: rest) = Ok (split_frame df)
  /\ seed self (first :: rest)
     = bind_inputs self (get_device self) (_input_names self) 0 (split_frame df) ∅
  /\ forall input_name c cs,
      _input_names self = [input_name] ->
      Pd.series df = c :: cs ->
      Pd.name c ∉ List.map Pd.name cs ->
      seed self (first :: rest)
      = (let* t := normalize self (get_device self) input_name
                     (Py_ndarray (Np.reshape_column (Pd.values c))) in
         Ok {[ input_name := Py_Tensor t ]}).
Proof.
  intros Hpd Hdf Hlen.
  assert (check_arity self (first :: rest) = Ok tt) as Hcheck.
  { unfold check_arity. by rewrite Hlen, Nat.eqb_refl. }
  assert (input_list (first :: rest) = Ok (split_frame df)) as Hlist.
  { unfold input_list. rewrite Hpd. simpl.
    by rewrite (as_DataFrame_isinstance _ _ Hdf), Hdf. }
  assert (seed self (first :: rest)
          = bind_inputs self (get_device self) (_input_names self) 0 (split_frame df) ∅)
    as Hseed by (unfold seed; by rewrite Hcheck, Hlist).
  repeat split; try done.
  intros input_name c cs Hname Hcols Hfresh. rewrite Hseed, Hname.
  unfold split_frame, Pd.columns, Pd.select. rewrite Hcols. simpl.
  rewrite String.eqb_refl.
  replace (List.filter _ cs) with (@nil Pd.Series).
  - simpl. by destruct (normalize _ _ _ _).
  - clear -Hfresh. induction cs as [|c1 cs IH]; [done |]. simpl.
    destruct (String.eqb (Pd.name c1) (Pd.name c)) eqn:E.
    + apply String.eqb_eq in E. exfalso. apply Hfresh. rewrite <- E. left.
    + apply IH. intros Hin. apply Hfresh. by right.
Qed.

(** C1, as amended.  With N >= 1 resolved input names and
    [check_dataframe_to_array] set and false, or with N = 1, a call
    with one DataFrame of exactly N columns under pairwise distinct
    labels passes the assertion and seeds the symbol table exactly as
    the call with the N arrays [column.to_numpy().reshape(-1, 1)], in
    column order, does: the same tensors under the same names, or the
    same exception; the two calls then return the same. *)
Theorem frame_binds_like_its_columns self df w :
  pandas_installed = true ->
  length (Pd.columns df) = length (_input_names self) ->
  1 <= length (_input_names self) ->
  check_dataframe_to_array self = Some false \/ length (_input_names self) = 1 ->
  NoDup (Pd.columns df) ->
  let arrays := List.map (fun c => Py_ndarray (Np.reshape_column (Pd.values c)))
                         (Pd.series df) in
  check_arity self [Py_DataFrame df] = Ok tt
  /\ seed self [Py_DataFrame df] = seed self arrays
  /\ fst (forward self [Py_DataFrame df] w) = fst (forward self arrays w).
Proof.
  intros Hpd Hcols Hpos Hflag Hnd arrays.
  assert (check_arity self [Py_DataFrame df] = Ok tt) as Hcheck.
  { unfold check_arity. destruct (Nat.eqb _ _) eqn:E; [done |].
    rewrite Hpd. simpl.
    destruct Hflag as [-> | H1]; [| apply Nat.eqb_neq in E; simpl in E; lia].
    by rewrite Hcols, Nat.eqb_refl. }
  assert (length arrays = length (_input_names self)) as Hlen.
  { unfold arrays. rewrite length_map, <- Hcols. unfold Pd.columns. by rewrite length_map. }
  assert (seed self [Py_DataFrame df] = seed self arrays) as Hseed.
  { unfold seed. rewrite Hcheck. unfold check_arity. rewrite Hlen, Nat.eqb_refl. simpl.
    unfold input_list. rewrite Hpd. simpl. rewrite (split_frame_distinct df Hnd).
    fold arrays. destruct arrays as [|a arrays'] eqn:Ha; [simpl in Hlen; lia |].
    replace (isinstance a Ty_DataFrame) with false; [done |].
    unfold arrays in Ha. destruct (Pd.series df); [done |].
    simpl in Ha. by injection Ha as <- _. }
  repeat split; try done.
  rewrite !forward_value. unfold final_map. by rewrite Hseed.
Qed.

(** C10.  The classification compares [type(input_)] itself: a tuple
    and an instance of a proper subclass of [list], of [np.ndarray]
    or of [torch.Tensor] are neither coerced nor accepted; the loop
    body raises the unsupported-type error naming the input and its
    type, and [forward] raises it when that input is reached. *)
Theorem unsupported_unless_exact_type self device name x :
  type_of x = Ty_tuple
  \/ proper_subclass_instance x Ty_list
  \/ proper_subclass_instance x Ty_ndarray
  \/ proper_subclass_instance x Ty_Tensor ->
  normalize self device name x = Err (RuntimeError type_message name (type_of x))
  /\ forall inputs i input_name w,
      length inputs = length (_input_names self) ->
      (forall first, hd_error inputs = Some first -> isinstance first Ty_DataFrame = false) ->
      nth_error inputs i = Some x ->
      _input_names self !! i = Some input_name ->
      (forall j nm, j < i -> _input_names self !! j = Some nm ->
         exists y t, nth_error inputs j = Some y
                     /\ normalize self (get_device self) nm y = Ok t) ->
      fst (forward self inputs w)
      = Err (RuntimeError type_message input_name (type_of x)).
Proof.
  intros Hx.
  assert (forall dev nm, normalize self dev nm x
                         = Err (RuntimeError type_message nm (type_of x))) as Hraise.
  { intros dev nm.
    destruct Hx as [Ht | [Hs | [Hs | Hs]]].
    - destruct x; try done.
    - apply proper_subclass_is_instance in Hs as (c & base & ->). done.
    - apply proper_subclass_is_instance in Hs as (c & base & ->). done.
    - apply proper_subclass_is_instance in Hs as (c & base & ->). done. }
  split; [apply Hraise |].
  intros inputs i input_name w Hlen Hfirst Hi Hname Hbefore.
  rewrite forward_value. unfold final_map, seed, check_arity.
  rewrite Hlen, Nat.eqb_refl. simpl.
  assert (input_list inputs = Ok inputs) as ->.
  { unfold input_list. destruct pandas_installed; [| done]. simpl.
    destruct inputs as [|first rest]; [by destruct i |].
    by rewrite (Hfirst first). }
  simpl.
  by rewrite (bind_inputs_error self (get_device self) (_input_names self) 0 inputs ∅
                i input_name x _ Hname Hi (Hraise _ _) Hbefore).
Qed.

(** An array of kind [f] reaches [torch.from_numpy] as it is. *)
Lemma normalize_float_array self device name a :
  is_string_kind "f" = false ->
  Np.kind (Np.dtype_of a) = "f"%char ->
  normalize self device name (Py_ndarray a)
  = (let* t := Torch.from_numpy a in
     Ok (place device (if decide (Torch.dtype_of t = Torch.float64)
                       then Torch.float t else t))).
Proof.
  intros Hkind Hf. unfold normalize, convert_array. simpl. by rewrite Hf, Hkind.
Qed.

(** C8.  An array of double precision elements is bound as a single
    precision tensor, each element rounded to single precision; an
    array of single precision elements is bound as a single
    precision tensor of the same element width, its elements as they
    were.  A tensor is bound whenever [torch.from_numpy] takes the
    array as it lies in memory; when it does not, its [ValueError] is
    raised and nothing is bound.  These are the tensors the seeded
    symbol table holds. *)
Theorem double_arrays_bound_single self device name a :
  is_string_kind "f" = false ->
  (Np.dtype_of a = Np.float64 ->
   (Torch.layout_error a = None ->
    exists t, normalize self device name (Py_ndarray a) = Ok t)
   /\ (forall what, Torch.layout_error a = Some what ->
         normalize self device name (Py_ndarray a) = Err (ValueError what))
   /\ forall t,
       normalize self device name (Py_ndarray a) = Ok t ->
       Torch.dtype_of t = Torch.float32
       /\ Torch.shape t = Np.shape a
       /\ Torch.data t
          = List.map (fun x => match x with
                               | Np.Float f => Np.Float (IEEE.b32_of_b64 f)
                               | _ => x
                               end) (Np.data a))
  /\ (Np.dtype_of a = Np.float32 ->
      (Torch.layout_error a = None ->
       exists t, normalize self device name (Py_ndarray a) = Ok t)
      /\ (forall what, Torch.layout_error a = Some what ->
            normalize self device name (Py_ndarray a) = Err (ValueError what))
      /\ forall t,
          normalize self device name (Py_ndarray a) = Ok t ->
          Torch.dtype_of t = Torch.float32
          /\ Torch.width (Torch.dtype_of t) = Np.width (Np.dtype_of a)
          /\ Torch.shape t = Np.shape a
          /\ Torch.data t = Np.data a)
  /\ forall inputs ins vm i,
      device = get_device self ->
      seed self inputs = Ok vm ->
      input_list inputs = Ok ins ->
      nth_error ins i = Some (Py_ndarray a) ->
      _input_names self !! i = Some name ->
      (forall j, i < j -> _input_names self !! j <> Some name) ->
      exists t, normalize self device name (Py_ndarray a) = Ok t
                /\ vm !! name = Some (Py_Tensor t).
Proof.
  intros Hkind. split; [| split].
  - intros Hd.
    rewrite normalize_float_array by (done || by rewrite Hd).
    unfold Torch.from_numpy. rewrite Hd. simpl.
    destruct (Torch.layout_error a) as [what|]; simpl.
    + split; [done |]. split; [| done]. intros what' Hwhat. by injection Hwhat as ->.
    + split; [eauto |]. split; [done |]. intros t Ht. injection Ht as <-.
      destruct (place_keeps device
                  (Torch.float {| Torch.dtype_of := Torch.float64; Torch.shape := Np.shape a;
                                  Torch.data := Np.data a; Torch.device_of := Torch.cpu |}))
        as (-> & -> & ->).
      done.
  - intros Hd.
    rewrite normalize_float_array by (done || by rewrite Hd).
    unfold Torch.from_numpy. rewrite Hd. simpl.
    destruct (Torch.layout_error a) as [what|]; simpl.
    + split; [done |]. split; [| done]. intros what' Hwhat. by injection Hwhat as ->.
    + split; [eauto |]. split; [done |]. intros t Ht. injection Ht as <-.
      destruct (place_keeps device
                  {| Torch.dtype_of := Torch.float32; Torch.shape := Np.shape a;
                     Torch.data := Np.data a; Torch.device_of := Torch.cpu |})
        as (-> & -> & ->).
      done.
  - intros inputs ins vm i -> Hseed Hins Hi Hname Hlast.
    by apply (seed_binds self inputs ins vm i).
Qed.

Lemma bound_seconds_epoch u : bound_seconds u 0 = S754_zero false.
Proof. by destruct u. Qed.

Lemma wrap64_in_range x : Np.in_int64 x = true -> Np.wrap64 x = x.
Proof.
  unfold Np.in_int64, Np.wrap64. intros H.
  apply andb_true_iff in H as [Hlo Hhi].
  apply Z.ltb_lt in Hlo. apply Z.ltb_lt in Hhi.
  rewrite Z.mod_small; lia.
Qed.

(** Where nothing leaves the 64-bit range the elapsed ticks are the
    exact ones, whatever numpy does on overflow. *)
Lemma since_epoch_exact overflow u t :
  Np.representable u t = true ->
  Np.since_epoch overflow u t = Ok (Np.exact_since_epoch u t).
Proof.
  unfold Np.representable, Np.since_epoch, Np.exact_since_epoch, Np.cast_ticks.
  intros H.
  assert (Np.exact_ticks Np.epoch_unit (Np.finer u Np.epoch_unit) Np.epoch_ticks = 0%Z)
    as -> by done.
  replace (Z.eqb Np.epoch_ticks Np.NaT) with false by done.
  replace (Np.in_int64 0) with true by done.
  destruct (Z.eqb t Np.NaT) eqn:Hnat; simpl; [done |].
  simpl in H. rewrite H. simpl. unfold Np.sub_ticks.
  assert (Z.eqb (Np.exact_ticks u (Np.finer u Np.epoch_unit) t) Np.NaT = false) as ->.
  { apply Z.eqb_neq. unfold Np.in_int64 in H. apply andb_true_iff in H as [Hlo _].
    apply Z.ltb_lt in Hlo. unfold Np.NaT. lia. }
  simpl. f_equal. rewrite Z.sub_0_r. by apply wrap64_in_range.
Qed.

Lemma mapR_map {A B : Type} (f : A -> Result B) (g : A -> B) (l : list A) :
  Forall (fun x => f x = Ok (g x)) l -> mapR f l = Ok (List.map g l).
Proof.
  induction 1 as [|x l Hx _ IH]; simpl; [done |]. by rewrite Hx, IH.
Qed.

(** [torch.from_numpy] finds nothing to refuse in the memory of a newly
    allocated array of doubles. *)
Lemma fresh_doubles_layout dims xs :
  Torch.layout_error (Np.fresh Np.float64 dims xs) = None.
Proof.
  unfold Torch.layout_error, Np.fresh. simpl.
  assert (Forall (fun s => exists k, (0 <= k)%Z /\ s = (8 * k)%Z)
                 (Np.contiguous_strides (Np.itemsize Np.float64) dims)) as Hs.
  { induction dims as [|d dims IH]; simpl; [constructor |]. constructor; [| done].
    eexists. split; [| reflexivity]. clear IH.
    induction dims as [|k dims IH]; simpl; [lia |].
    destruct (Nat.eqb k 0); lia. }
  replace (forallb _ _) with true; simpl.
  - replace (forallb _ _) with true; [done |].
    symmetry. apply forallb_forall. intros s Hin.
    apply (proj1 (List.Forall_forall _ _) Hs) in Hin as (k & Hk & ->).
    apply Z.leb_le. lia.
  - symmetry. apply forallb_forall. intros s Hin.
    apply (proj1 (List.Forall_forall _ _) Hs) in Hin as (k & Hk & ->).
    apply Z.eqb_eq. change (Np.itemsize Np.float64) with 8%Z.
    rewrite Z.mul_comm. by apply Z.mod_mul.
Qed.

(** C2, as amended.  An array of kind [M] with at least one axis, its
    elements tick counts that are not-a-time or stay in the 64-bit
    range when taken to the finer of the array's unit and nanoseconds,
    is bound as a single precision floating point tensor of the
    array's shape; the element bound for a tick count is the elapsed
    tick count since the Unix epoch, taken to double precision,
    divided there by one billion and rounded to single precision: a
    true division, nothing is truncated to whole seconds.  Such an
    array without axes raises the type error of [torch.from_numpy].
    The epoch binds [0.0]; the epoch plus 90 seconds binds [90.0], in
    seconds, milliseconds, microseconds or nanoseconds. *)
Theorem datetime_arrays_bound_as_float_seconds self device name a u :
  Np.dtype_of a = Np.datetime64 u ->
  is_string_kind "M" = false ->
  Forall (fun x => exists ticks, x = Np.Ticks ticks /\ Np.representable u ticks = true)
         (Np.data a) ->
  (Np.shape a <> [] ->
   exists t,
     normalize self device name (Py_ndarray a) = Ok t
     /\ Torch.dtype_of t = Torch.float32
     /\ Torch.shape t = Np.shape a
     /\ length (Torch.data t) = length (Np.data a)
     /\ forall k ticks,
         Np.data a !! k = Some (Np.Ticks ticks) ->
         Torch.data t !! k = Some (Np.Float (bound_seconds u ticks)))
  /\ (Np.shape a = [] ->
      normalize self device name (Py_ndarray a)
      = Err (TypeError "expected np.ndarray (got numpy.float64)"))
  /\ (forall v, bound_seconds v 0 = S754_zero false)
  /\ bound_seconds Np.U_s 90 = IEEE.b32_of_b64 (IEEE.b64_of_Z 90)
  /\ bound_seconds Np.U_ms 90000 = IEEE.b32_of_b64 (IEEE.b64_of_Z 90)
  /\ bound_seconds Np.U_us 90000000 = IEEE.b32_of_b64 (IEEE.b64_of_Z 90)
  /\ bound_seconds Np.U_ns 90000000000 = IEEE.b32_of_b64 (IEEE.b64_of_Z 90).
Proof.
  intros Hd Hkind Hrep.
  set (elapsed := fun x => match x with
                           | Np.Ticks t => Np.Ticks (Np.exact_since_epoch u t)
                           | _ => x
                           end).
  assert (datetime_to_seconds a
          = Ok (Np.true_divide
                  (Np.astype_int64
                     (Np.fresh (Np.timedelta64 (Np.finer u Np.epoch_unit)) (Np.shape a)
                        (List.map elapsed (Np.data a))))
                  1000000000)) as Hsec.
  { unfold datetime_to_seconds, Np.subtract_epoch. rewrite Hd.
    rewrite (mapR_map _ elapsed); [done |].
    eapply Forall_impl; [exact Hrep |]. intros x (ticks & -> & Hticks). simpl.
    by rewrite since_epoch_exact. }
  assert (normalize self device name (Py_ndarray a)
          = (let* seconds := datetime_to_seconds a in
             let* a' := match Np.shape a with
                        | [] => Err (TypeError "expected np.ndarray (got numpy.float64)")
                        | _ => Ok seconds
                        end in
             let* t := Torch.from_numpy a' in
             Ok (place device (if decide (Torch.dtype_of t = Torch.float64)
                               then Torch.float t else t)))) as Hnorm.
  { unfold normalize, convert_array. simpl. rewrite Hd. simpl. rewrite Hkind. simpl.
    destruct (datetime_to_seconds a); simpl; [by destruct (Np.shape a) | done]. }
  split; [| split; [| split; [apply bound_seconds_epoch | by vm_compute]]].
  - intros Hshape. rewrite Hnorm, Hsec. simpl.
    destruct (Np.shape a) as [|d dims] eqn:Hdims; [done |]. simpl.
    unfold Np.true_divide, Np.astype_int64, Np.map_data, Torch.from_numpy. simpl.
    rewrite fresh_doubles_layout. simpl.
    eexists. split; [reflexivity |].
    match goal with |- context [place device ?t] =>
      destruct (place_keeps device t) as (-> & -> & ->) end.
    simpl. repeat split.
    + by rewrite !length_map.
    + intros k ticks Hk. rewrite !List.map_map.
      change (List.map ?f ?l) with (f <$> l). rewrite list_lookup_fmap, Hk. done.
  - intros Hshape. rewrite Hnorm, Hsec. simpl. by rewrite Hshape.
Qed.

End ForwardClaims.

(** * The claims on concrete calls *)

Lemma forward_returns_outputs_in_order_witness :
  exists r,
    fst (forward (Ext := Sample.ext) Sample.swapped_outputs
           [Py_ndarray (Sample.doubles [1; 2; 3]%Z)] Sample.world) = Ok r
    /\ exists variable_map,
        final_map (Ext := Sample.ext) Sample.swapped_outputs
          [Py_ndarray (Sample.doubles [1; 2; 3]%Z)] = Ok variable_map
        /\ (forall o, _output_names Sample.swapped_outputs = [o] -> variable_map !! o = Some r)
        /\ (1 < length (_output_names Sample.swapped_outputs) ->
            exists vs,
              r = Py_tuple vs
              /\ length vs = length (_output_names Sample.swapped_outputs)
              /\ forall i o, _output_names Sample.swapped_outputs !! i = Some o ->
                   is_Some (vs !! i) /\ vs !! i = variable_map !! o).
Proof.
  eexists. split; [vm_compute; reflexivity |].
  apply (forward_returns_outputs_in_order (Ext := Sample.ext) Sample.swapped_outputs
           [Py_ndarray (Sample.doubles [1; 2; 3]%Z)] Sample.world).
  vm_compute. reflexivity.
Defined.

(** C5 as stated fails: one input expected, two supplied, the first a
    frame of one column while [check_dataframe_to_array] is false; the
    call returns the frame's column and the second input is ignored. *)
Lemma extra_input_after_frame_ignored :
  let self := Sample.one_input (Some false) in
  let inputs := [Py_DataFrame Sample.one_column; Py_ndarray (Sample.doubles [7]%Z)] in
  length inputs = S (length (_input_names self))
  /\ fst (forward (Ext := Sample.ext) self inputs Sample.world)
     <> Err (arity_error self)
  /\ exists t,
      fst (forward (Ext := Sample.ext) self inputs Sample.world) = Ok (Py_Tensor t)
      /\ Torch.shape t = [2; 1]
      /\ fst (forward (Ext := Sample.ext) self
                [Py_DataFrame Sample.one_column; Py_other "NoneType"] Sample.world)
         = Ok (Py_Tensor t).
Proof.
  cbv zeta. split; [reflexivity |]. split; [by vm_compute |].
  eexists. split; [vm_compute; reflexivity |]. split; by vm_compute.
Qed.

Lemma forward_rejects_wrong_arity_witness :
  seed (Ext := Sample.ext) (Sample.one_input None)
    [Py_ndarray (Sample.doubles [1]%Z); Py_ndarray (Sample.doubles [2]%Z)]
  = Err (arity_error (Sample.one_input None))
  /\ fst (forward (Ext := Sample.ext) (Sample.one_input None)
            [Py_ndarray (Sample.doubles [1]%Z); Py_ndarray (Sample.doubles [2]%Z)]
            Sample.world)
     = Err (AssertionError (Some (arity_message, _input_names (Sample.one_input None)))).
Proof.
  apply (forward_rejects_wrong_arity (Ext := Sample.ext) (Sample.one_input None)
           (Py_ndarray (Sample.doubles [1]%Z)) [Py_ndarray (Sample.doubles [2]%Z)]
           Sample.world).
  - right. reflexivity.
  - left. reflexivity.
Defined.

(** C3 as stated fails: one input expected, a frame without columns
    supplied; the assertion passes and the binding loop raises the
    index error, there being no first column to bind. *)
Lemma frame_without_columns_not_bound :
  check_arity (Ext := Sample.ext) (Sample.one_input None) [Py_DataFrame Sample.no_columns]
  = Ok tt
  /\ seed (Ext := Sample.ext) (Sample.one_input None) [Py_DataFrame Sample.no_columns]
     = Err IndexError
  /\ fst (forward (Ext := Sample.ext) (Sample.one_input None)
            [Py_DataFrame Sample.no_columns] Sample.world)
     = Err IndexError.
Proof. repeat split; by vm_compute. Qed.

Lemma frame_first_replaces_inputs_witness :
  exists t,
    normalize (Ext := Sample.ext) (Sample.one_input None) None "x0"
      (Py_ndarray (Np.reshape_column (Sample.doubles [1; 2]%Z))) = Ok t
    /\ seed (Ext := Sample.ext) (Sample.one_input None) [Py_DataFrame Sample.two_columns]
       = Ok {[ "x0" := Py_Tensor t ]}.
Proof.
  destruct (frame_first_replaces_inputs (Ext := Sample.ext) (Sample.one_input None)
              (Py_DataFrame Sample.two_columns) [] Sample.two_columns
              eq_refl eq_refl eq_refl) as (_ & _ & _ & Hfirst).
  eexists. split; [vm_compute; reflexivity |].
  rewrite (Hfirst "x0" {| Pd.name := "c"; Pd.values := Sample.doubles [1; 2]%Z |}
             [{| Pd.name := "d"; Pd.values := Sample.doubles [3; 4]%Z |}]
             eq_refl eq_refl).
  - vm_compute. reflexivity.
  - intros Hin. no_member Hin.
Defined.

(** C1 as stated fails: two inputs expected, a frame of two columns
    supplied while [check_dataframe_to_array] is true; the assertion
    fails, though the two column arrays are accepted. *)
Lemma frame_refused_when_flag_set :
  let self := Sample.two_inputs (Some true) in
  length (Pd.columns Sample.two_columns) = length (_input_names self)
  /\ seed (Ext := Sample.ext) self [Py_DataFrame Sample.two_columns]
     = Err (arity_error self)
  /\ fst (forward (Ext := Sample.ext) self [Py_DataFrame Sample.two_columns] Sample.world)
     = Err (arity_error self)
  /\ exists variable_map,
      seed (Ext := Sample.ext) self
        (List.map (fun c => Py_ndarray (Np.reshape_column (Pd.values c)))
                  (Pd.series Sample.two_columns))
      = Ok variable_map.
Proof.
  cbv zeta. split; [reflexivity |]. split; [by vm_compute |]. split; [by vm_compute |].
  eexists. vm_compute. reflexivity.
Qed.

Lemma frame_binds_like_its_columns_witness :
  let self := Sample.two_inputs (Some false) in
  let arrays := List.map (fun c => Py_ndarray (Np.reshape_column (Pd.values c)))
                         (Pd.series Sample.two_columns) in
  check_arity (Ext := Sample.ext) self [Py_DataFrame Sample.two_columns] = Ok tt
  /\ seed (Ext := Sample.ext) self [Py_DataFrame Sample.two_columns]
     = seed (Ext := Sample.ext) self arrays
  /\ fst (forward (Ext := Sample.ext) self [Py_DataFrame Sample.two_columns] Sample.world)
     = fst (forward (Ext := Sample.ext) self arrays Sample.world).
Proof.
  apply (frame_binds_like_its_columns (Ext := Sample.ext) (Sample.two_inputs (Some false))
           Sample.two_columns Sample.world).
  - reflexivity.
  - reflexivity.
  - simpl. lia.
  - left. reflexivity.
  - apply (bool_decide_unpack _). vm_compute. exact I.
Defined.

Lemma unsupported_unless_exact_type_witness :
  normalize (Ext := Sample.ext) (Sample.one_input None) None "x0" Sample.parameter
  = Err (RuntimeError type_message "x0" (Ty_subclass "Parameter" Ty_Tensor))
  /\ fst (forward (Ext := Sample.ext) (Sample.one_input None) [Sample.parameter] Sample.world)
     = Err (RuntimeError type_message "x0" (Ty_subclass "Parameter" Ty_Tensor)).
Proof.
  destruct (unsupported_unless_exact_type (Ext := Sample.ext) (Sample.one_input None)
              None "x0" Sample.parameter) as [Hbody Hcall].
  - right. right. right. split; [discriminate | reflexivity].
  - split; [exact Hbody |].
    apply (Hcall [Sample.parameter] 0 "x0" Sample.world); try reflexivity.
    + intros first Hfirst. injection Hfirst as <-. reflexivity.
    + intros j nm Hj. lia.
Defined.

Lemma double_arrays_bound_single_witness :
  exists t,
    normalize (Ext := Sample.ext) (Sample.one_input None) None "x0"
      (Py_ndarray (Sample.doubles [1; 2; 3]%Z)) = Ok t
    /\ Torch.dtype_of t = Torch.float32
    /\ Torch.shape t = [3]
    /\ Torch.data t
       = List.map (fun z => Np.Float (IEEE.b32_of_b64 (IEEE.b64_of_Z z))) [1; 2; 3]%Z.
Proof.
  destruct (double_arrays_bound_single (Ext := Sample.ext) (Sample.one_input None)
              None "x0" (Sample.doubles [1; 2; 3]%Z) eq_refl) as [Hdouble _].
  destruct (Hdouble eq_refl) as (Hbound & _ & Hsingle).
  destruct (Hbound eq_refl) as [t Ht].
  destruct (Hsingle t Ht) as (Hdtype & Hshape & Hdata).
  exists t. repeat split; assumption.
Defined.

(** C2 as stated fails: the instant 1.5 seconds after the epoch, in
    milliseconds, is bound as the single precision value 1.5, not as
    the whole number of seconds 1. *)
Lemma datetime_fraction_kept :
  exists t,
    normalize (Ext := Sample.ext) (Sample.one_input None) None "x0"
      (Py_ndarray (Sample.instants Np.U_ms [1500]%Z)) = Ok t
    /\ Torch.dtype_of t = Torch.float32
    /\ Torch.data t = [Np.Float (S754_finite false 12582912 (-23))]
    /\ IEEE.is_integral (S754_finite false 12582912 (-23)) = false
    /\ Torch.data t <> [Np.Int (Np.exact_since_epoch Np.U_ms 1500 / 1000000000)].
Proof.
  eexists. split; [vm_compute; reflexivity |]. repeat split; by vm_compute.
Qed.

Lemma datetime_arrays_bound_as_float_seconds_witness :
  exists t,
    normalize (Ext := Sample.ext) (Sample.one_input None) None "x0"
      (Py_ndarray (Sample.instants Np.U_s [0; 90]%Z)) = Ok t
    /\ Torch.dtype_of t = Torch.float32
    /\ Torch.data t !! 0 = Some (Np.Float (S754_zero false))
    /\ Torch.data t !! 1 = Some (Np.Float (IEEE.b32_of_b64 (IEEE.b64_of_Z 90))).
Proof.
  destruct (datetime_arrays_bound_as_float_seconds (Ext := Sample.ext)
              (Sample.one_input None) None "x0" (Sample.instants Np.U_s [0; 90]%Z) Np.U_s
              eq_refl eq_refl)
    as (Hbound & _ & Hzero & Hs & _).
  - repeat constructor; eexists; (split; [reflexivity | reflexivity]).
  - destruct Hbound as (t & Ht & Hdtype & _ & _ & Hdata); [discriminate |].
    exists t. split; [exact Ht |]. split; [exact Hdtype |]. split.
    + rewrite (Hdata 0 0%Z eq_refl). by rewrite Hzero.
    + rewrite (Hdata 1 90%Z eq_refl). by rewrite Hs.
Defined.

(** * Further properties of the resolver and of the constructor *)

Section ResolverMore.

Context `{Ext : External}.
Import Naming NamingFacts.

(** [[f(x) for x in l]] that does not raise: one result per element, in
    order. *)
Lemma mapR_Ok {A B : Type} (f : A -> Result B) (l : list A) (l' : list B) :
  mapR f l = Ok l' ->
  length l' = length l
  /\ forall i x, l !! i = Some x -> exists y, f x = Ok y /\ l' !! i = Some y.
Proof.
  revert l'. induction l as [|a l IH]; intros l' H; simpl in H.
  - injection H as <-. split; [done |]. intros i x Hi. by rewrite lookup_nil in Hi.
  - destruct (f a) as [b|] eqn:Hb; [| done]. simpl in H.
    destruct (mapR f l) as [bs|]; [| done]. simpl in H. injection H as <-.
    destruct (IH bs eq_refl) as [Hlen Hall]. split; [simpl; by rewrite Hlen |].
    intros [|i] x Hi; simpl in Hi.
    + injection Hi as <-. eauto.
    + by apply Hall.
Qed.

(** [[f(x) for x in l]] raises what [f] raises on the first element it
    fails on. *)
Lemma mapR_Err {A B : Type} (f : A -> Result B) (pre : list A) (a : A) (post : list A) e :
  (forall x, x ∈ pre -> exists y, f x = Ok y) ->
  f a = Err e ->
  mapR f (pre ++ a :: post) = Err e.
Proof.
  intros Hpre Ha. induction pre as [|x pre IH]; simpl.
  - by rewrite Ha.
  - destruct (Hpre x) as [y ->]; [left |]. simpl.
    rewrite IH; [done |]. intros x' Hx'. apply Hpre. by right.
Qed.

Lemma init_input_names input_names output_names operator_map operators extra_config self :
  __init__ input_names output_names operator_map operators extra_config = Ok self ->
  _fix_var_naming operators input_names Input = Ok (_input_names self).
Proof.
  unfold __init__. intros H.
  destruct (_fix_var_naming operators input_names Input); [| done].
  destruct (_fix_var_naming (rev operators) output_names Output); [| done].
  simpl in H. destruct (mapR _ operators); [| done].
  simpl in H. by injection H as <-.
Qed.

(** The early [break] is an optimisation only: the map built when the
    scan stops as soon as it holds as many keys as there are declared
    names is the map built by scanning every operator. *)
Theorem early_break_changes_nothing mod_ names operators :
  scan_operators mod_ names operators ∅ = scan_all mod_ names operators ∅.
Proof. apply scan_operators_all, keys_declared_empty. Qed.

(** When every declared name is the raw name of some visited variable,
    the resolver returns one canonical name per declared name, in
    declared order: the full name of the first visited variable with
    that raw name. *)
Theorem resolver_succeeds_when_all_match operators names mod_ :
  (forall n, n ∈ names -> exists v, v ∈ visited mod_ operators /\ raw_name v = n) ->
  exists new_names,
    _fix_var_naming operators names mod_ = Ok new_names
    /\ length new_names = length names
    /\ forall i n, names !! i = Some n ->
         exists v, first_named n (visited mod_ operators) = Some v
                   /\ new_names !! i = Some (full_name v).
Proof.
  intros Hall.
  assert (forall n, n ∈ names ->
            exists v, first_named n (visited mod_ operators) = Some v
                      /\ scan_operators mod_ names operators ∅ !! n = Some (full_name v))
    as Hmap.
  { intros n Hn. rewrite scan_operators_lookup, decide_True by done.
    destruct (first_named n (visited mod_ operators)) as [v|] eqn:E; [by exists v |].
    destruct (Hall n Hn) as (v & Hv & Heq).
    by destruct (proj1 (first_named_None _ _) E v Hv). }
  unfold _fix_var_naming. cbv zeta. case_decide as Hempty.
  - exists names. repeat split; try done. intros i n Hi.
    destruct (Hmap n) as (v & _ & Hv); [apply list_elem_of_lookup; eauto |].
    by rewrite Hempty, lookup_empty in Hv.
  - destruct (mapR_getitem_cases (scan_operators mod_ names operators ∅) names)
      as [(new_names & Hok & Hlen & Hlook) | (pre & n' & post & Hsplit & _ & Hn' & _)].
    + exists new_names. repeat split; try done. intros i n Hi.
      destruct (Hmap n) as (v & Hfirst & Hv); [apply list_elem_of_lookup; eauto |].
      exists v. split; [done |]. destruct (Hlook i n Hi) as [-> _]. done.
    + destruct (Hmap n') as (v & _ & Hv); [rewrite Hsplit; apply elem_of_app; right; left |].
      congruence.
Qed.

(** The input side is scanned in topological order: when [operator] is
    the first operator with an input of raw name [n], every declared
    input name is the raw name of some operator's input, every declared
    output name that of some operator's output, and the operator map
    holds every operator, the constructor returns an executor in whose
    input names the full name that [operator] declares stands at the
    positions of [n]. *)
Theorem input_names_follow_first_consumer
    input_names output_names operator_map extra_config
    earlier operator later v n :
  first_named n (Naming.inputs operator) = Some v ->
  (forall op v', op ∈ earlier -> v' ∈ Naming.inputs op -> raw_name v' <> n) ->
  n ∈ input_names ->
  let operators := earlier ++ operator :: later in
  (forall n', n' ∈ input_names ->
     exists v', v' ∈ visited Input operators /\ raw_name v' = n') ->
  (forall n', n' ∈ output_names ->
     exists v', v' ∈ visited Output operators /\ raw_name v' = n') ->
  (forall op, op ∈ operators -> is_Some (operator_map !! op_full_name op)) ->
  exists self,
    __init__ input_names output_names operator_map operators extra_config = Ok self
    /\ forall i, input_names !! i = Some n ->
         _input_names self !! i = Some (full_name v).
Proof.
  intros Hv Hearlier Hn operators Hins Houts Hops.
  assert (scan_operators Input input_names operators ∅ !! n = Some (full_name v)) as Hrec.
  { rewrite scan_operators_lookup, decide_True by done.
    unfold operators, visited. rewrite map_app, concat_app, first_named_app.
    replace (first_named n (concat (List.map (side Input) earlier))) with (@None Var).
    - simpl. rewrite first_named_app. by rewrite Hv.
    - symmetry. apply first_named_None. intros v' Hin.
      apply list_elem_of_In, in_concat in Hin as (vars & Hvars & Hv').
      apply in_map_iff in Hvars as (op & <- & Hop).
      apply (Hearlier op v'); by apply list_elem_of_In. }
  destruct (resolver_returns operators input_names Input Hins) as (ins & Hin & Hlook).
  destruct (resolver_returns (rev operators) output_names Output) as (outs & Hout & _).
  { intros n' Hn'. destruct (Houts n' Hn') as (v' & Hv' & Heq).
    exists v'. split; [by apply visited_rev | done]. }
  destruct (init_returns input_names output_names operator_map operators extra_config
              ins outs Hin Hout Hops) as (self & Hinit & Hi & _).
  exists self. split; [done |].
  intros i Hi'. by rewrite Hi, (Hlook i n Hi').
Qed.

(** When the graph builder renamed nothing on the scanned side (every
    visited variable has its raw name as full name), the resolver
    either returns the declared names as they are or raises the
    missing-key error for a declared name no visited variable
    carries. *)
Theorem resolver_identity_without_renaming operators names mod_ :
  (forall v, v ∈ visited mod_ operators -> full_name v = raw_name v) ->
  _fix_var_naming operators names mod_ = Ok names
  \/ exists n, n ∈ names
               /\ (forall v, v ∈ visited mod_ operators -> raw_name v <> n)
               /\ _fix_var_naming operators names mod_ = Err (KeyError n).
Proof.
  intros Hsame. unfold _fix_var_naming. cbv zeta. case_decide as Hempty; [by left |].
  destruct (mapR_getitem_cases (scan_operators mod_ names operators ∅) names)
    as [(new_names & Hok & Hlen & Hlook) | (pre & n' & post & Hsplit & _ & Hn' & Herr)].
  - left. rewrite Hok. f_equal. apply list_eq. intros i.
    destruct (names !! i) as [n|] eqn:Hi.
    + destruct (Hlook i n Hi) as [-> _].
      rewrite scan_operators_lookup, decide_True by (apply list_elem_of_lookup; eauto).
      destruct (Hlook i n Hi) as [_ [f Hf]].
      rewrite scan_operators_lookup, decide_True in Hf by (apply list_elem_of_lookup; eauto).
      destruct (first_named n (visited mod_ operators)) as [v|] eqn:E; [| done].
      apply first_named_Some in E as [Hv Hraw]. simpl. by rewrite (Hsame v Hv), Hraw.
    + apply lookup_ge_None. rewrite Hlen. by apply lookup_ge_None.
  - right. exists n'.
    assert (n' ∈ names) as Hin by (rewrite Hsplit; apply elem_of_app; right; left).
    repeat split; try done.
    apply first_named_None.
    rewrite scan_operators_lookup, decide_True in Hn' by done.
    by destruct (first_named n' (visited mod_ operators)).
Qed.

(** With both name lists resolved, the constructor raises the
    missing-key error for the first topology operator whose full name
    the operator map does not hold. *)
Theorem init_missing_operator
    input_names output_names operator_map extra_config ins outs pre op post :
  _fix_var_naming (pre ++ op :: post) input_names Input = Ok ins ->
  _fix_var_naming (rev (pre ++ op :: post)) output_names Output = Ok outs ->
  (forall o, o ∈ pre -> is_Some (operator_map !! op_full_name o)) ->
  operator_map !! op_full_name op = None ->
  __init__ input_names output_names operator_map (pre ++ op :: post) extra_config
  = Err (KeyError (op_full_name op)).
Proof.
  intros Hins Houts Hpre Hop. unfold __init__. rewrite Hins, Houts. simpl.
  rewrite (mapR_Err _ pre op post (KeyError (op_full_name op))); [done | |].
  - intros o Ho. destruct (Hpre o Ho) as [m Hm]. exists m. unfold getitem. by rewrite Hm.
  - unfold getitem. by rewrite Hop.
Qed.

End ResolverMore.

(** * Further properties of [forward] *)

Section ForwardMore.

Context `{Ext : External}.
Import NamingFacts.

Lemma bind_assoc {A B C : Type} (r : Result A) (f : A -> Result B) (g : B -> Result C) :
  bind (bind r f) g = bind r (fun a => bind (f a) g).
Proof. by destruct r. Qed.

(** The binding loop reads its inputs only through what each position
    normalises to. *)
Lemma bind_inputs_ext self device names k inputs1 inputs2 vm :
  (forall i nm, names !! i = Some nm ->
     (let* x := match nth_error inputs1 (k + i) with
                | Some x => Ok x | None => Err IndexError end in
      normalize self device nm x)
     = (let* x := match nth_error inputs2 (k + i) with
                  | Some x => Ok x | None => Err IndexError end in
        normalize self device nm x)) ->
  bind_inputs self device names k inputs1 vm = bind_inputs self device names k inputs2 vm.
Proof.
  revert k vm. induction names as [|n names IH]; intros k vm Hsame; [done |].
  cbn [bind_inputs].
  pose proof (Hsame 0 n eq_refl) as H0. rewrite Nat.add_0_r in H0.
  assert (forall vm', bind_inputs self device names (S k) inputs1 vm'
                      = bind_inputs self device names (S k) inputs2 vm') as Hrest.
  { intros vm'. apply IH. intros i nm Hi.
    replace (S k + i) with (k + S i) by lia. by apply Hsame. }
  destruct (nth_error inputs1 k) as [x|], (nth_error inputs2 k) as [y|]; simpl in *.
  - rewrite H0. destruct (normalize self device n y); [apply Hrest | done].
  - by rewrite H0.
  - by rewrite <- H0.
  - done.
Qed.

Lemma bind_inputs_prefix self device names k l1 l2 vm :
  k + length names <= length l1 ->
  bind_inputs self device names k (l1 ++ l2) vm = bind_inputs self device names k l1 vm.
Proof.
  intros Hlen. apply bind_inputs_ext. intros i nm Hi.
  apply lookup_lt_Some in Hi. rewrite nth_error_app1 by lia. done.
Qed.

(** Fewer inputs than names: the loop runs out of inputs. *)
Lemma bind_inputs_short self device names k inputs vm :
  k <= length inputs ->
  length inputs < k + length names ->
  (forall i x nm, nth_error inputs (k + i) = Some x -> names !! i = Some nm ->
     exists t, normalize self device nm x = Ok t) ->
  bind_inputs self device names k inputs vm = Err IndexError.
Proof.
  revert k vm. induction names as [|n names IH]; intros k vm Hk Hlen Hok.
  - simpl in Hlen. lia.
  - cbn [bind_inputs]. destruct (nth_error inputs k) as [x|] eqn:Hx; [| done].
    simpl. destruct (Hok 0 x n) as [t ->]; [by rewrite Nat.add_0_r | done |].
    simpl. apply IH.
    + apply Nat.lt_le_incl in Hlen. assert (k < length inputs); [| lia].
      apply nth_error_Some. by rewrite Hx.
    + simpl in Hlen. lia.
    + intros i y nm Hy Hnm. apply (Hok (S i) y nm); [| done].
      by replace (k + S i) with (S k + i) by lia.
Qed.

(** What the binding loop leaves in the table, name by name. *)
Lemma bind_inputs_entries self device names k inputs vm0 vm :
  bind_inputs self device names k inputs vm0 = Ok vm ->
  forall name,
    (name ∉ names -> vm !! name = vm0 !! name)
    /\ (name ∈ names ->
        exists x t, x ∈ inputs /\ normalize self device name x = Ok t
                    /\ vm !! name = Some (Py_Tensor t)).
Proof.
  intros H name. split.
  - by apply (bind_inputs_other _ _ _ _ _ _ _ _ H).
  - intros Hin.
    assert (exists i, names !! i = Some name /\ forall j, i < j -> names !! j <> Some name)
      as (i & Hi & Hlast).
    { clear H. induction names as [|n names IH]; [by apply elem_of_nil in Hin |].
      destruct (decide (name ∈ names)) as [Hin'|Hnot].
      - destruct (IH Hin') as (i & Hi & Hlast). exists (S i). split; [done |].
        intros [|j] Hj; [lia |]. simpl. apply Hlast. lia.
      - apply elem_of_cons in Hin as [-> | Hin]; [| done]. exists 0. split; [done |].
        intros [|j] Hj Hnm; [lia |]. simpl in Hnm. apply Hnot.
        apply list_elem_of_lookup. eauto. }
    destruct (bind_inputs_lookup _ _ _ _ _ _ _ _ _ H Hi Hlast) as (x & t & Hx & Ht & Hvm).
    exists x, t. repeat split; try done.
    apply list_elem_of_In. by apply nth_error_In in Hx.
Qed.

Lemma normalize_result self device name x t :
  normalize self device name x = Ok t ->
  Torch.dtype_of t <> Torch.float64
  /\ (forall d, device = Some d -> String.eqb (Torch.type d) "cpu" = false ->
        Torch.device_of t = d)
  /\ place device t = t.
Proof.
  unfold normalize. intros H.
  destruct (match x with Py_list _ => _ | _ => _ end) as [x'|]; [| done]. simpl in H.
  destruct (match x' with Py_ndarray _ => _ | _ => _ end) as [t0|]; [| done]. simpl in H.
  injection H as <-.
  set (t1 := if decide (Torch.dtype_of t0 = Torch.float64) then Torch.float t0 else t0).
  assert (Torch.dtype_of t1 <> Torch.float64) as Hd.
  { unfold t1. case_decide; [done | done]. }
  destruct (place_keeps device t1) as (Hdt & _ & _).
  split; [by rewrite Hdt |]. split.
  - intros d -> Hcpu. unfold place. by rewrite Hcpu.
  - unfold place. destruct device as [d|]; [| done].
    by destruct (String.eqb (Torch.type d) "cpu").
Qed.

Lemma run_operators_app a b vm :
  run_operators (a ++ b) vm = (let* vm1 := run_operators a vm in run_operators b vm1).
Proof.
  revert vm. induction a as [|op a IH]; intros vm; simpl; [done |].
  destruct (run_operator op vm); [apply IH | done].
Qed.

Lemma bind_outputs_keeps names k outs vm vm' :
  bind_outputs names k outs vm = Ok vm' ->
  (forall name, is_Some (vm !! name) -> is_Some (vm' !! name))
  /\ (forall name, name ∉ names -> vm' !! name = vm !! name).
Proof.
  revert k vm. induction names as [|o names IH]; intros k vm H; simpl in H.
  - by injection H as <-.
  - destruct (subscript outs k) as [v|]; [| done]. simpl in H.
    destruct (IH _ _ H) as [Hsome Hother]. split.
    + intros name Hname. apply Hsome.
      destruct (decide (o = name)) as [-> | Hne];
        [by rewrite lookup_insert_eq | by rewrite lookup_insert_ne].
    + intros name Hnot. rewrite Hother by (intros ?; apply Hnot; by right).
      apply lookup_insert_ne. intros ->. apply Hnot. left.
Qed.

Lemma bind_outputs_lookup names k outs vm vm' i name :
  bind_outputs names k outs vm = Ok vm' ->
  names !! i = Some name ->
  (forall j, i < j -> names !! j <> Some name) ->
  exists v, subscript outs (k + i) = Ok v /\ vm' !! name = Some v.
Proof.
  revert k vm i. induction names as [|o names IH]; intros k vm i H Hi Hlast.
  - by rewrite lookup_nil in Hi.
  - simpl in H. destruct (subscript outs k) as [v|] eqn:Hv; [| done]. simpl in H.
    destruct i as [|i]; simpl in Hi.
    + injection Hi as ->. exists v. rewrite Nat.add_0_r. split; [done |].
      destruct (bind_outputs_keeps _ _ _ _ _ H) as [_ Hother].
      rewrite Hother; [apply lookup_insert_eq |].
      intros Hin. apply list_elem_of_lookup in Hin as [j Hj].
      apply (Hlast (S j)); [lia | done].
    + destruct (IH (S k) _ i H Hi) as (v' & Hv' & Hvm).
      * intros j Hj. apply (Hlast (S j)). lia.
      * exists v'. by replace (k + S i) with (S k + i) by lia.
Qed.

Lemma bind_outputs_tuple names k vs vm :
  (k + length names <= length vs ->
   exists vm', bind_outputs names k (Py_tuple vs) vm = Ok vm')
  /\ (k <= length vs -> length vs < k + length names ->
      bind_outputs names k (Py_tuple vs) vm = Err IndexError).
Proof.
  revert k vm. induction names as [|o names IH]; intros k vm; simpl.
  - split; [eauto | lia].
  - destruct (nth_error vs k) as [v|] eqn:Hv; simpl.
    + assert (k < length vs) by (apply nth_error_Some; by rewrite Hv).
      destruct (IH (S k) (<[o := v]> vm)) as [Hok Hshort]. split.
      * intros Hlen. apply Hok. lia.
      * intros Hk Hlen. apply Hshort; lia.
    + apply nth_error_None in Hv. split; [lia | done].
Qed.

Lemma run_operator_keeps operator vm vm' :
  run_operator operator vm = Ok vm' ->
  (forall name, is_Some (vm !! name) -> is_Some (vm' !! name))
  /\ (forall name, name ∉ outputs operator -> vm' !! name = vm !! name).
Proof.
  unfold run_operator. intros H.
  destruct (mapR _ _) as [args|]; [| done]. simpl in H.
  destruct (transform operator args) as [outs|]; [| done]. simpl in H.
  destruct (outputs operator) as [|o [|o' names]] eqn:Houts.
  - by apply (bind_outputs_keeps [] 0 outs vm vm').
  - injection H as <-. split.
    + intros name Hname. destruct (decide (o = name)) as [-> | Hne];
        [by rewrite lookup_insert_eq | by rewrite lookup_insert_ne].
    + intros name Hnot. apply lookup_insert_ne. intros ->. apply Hnot. left.
  - by apply (bind_outputs_keeps (o :: o' :: names) 0 outs vm vm').
Qed.

(** A call whose inputs fit the names and whose first input is no frame
    raises what the first failing input raises. *)
Lemma forward_raises_at self inputs i input_name x e w :
  length inputs = length (_input_names self) ->
  (forall first, hd_error inputs = Some first -> isinstance first Ty_DataFrame = false) ->
  nth_error inputs i = Some x ->
  _input_names self !! i = Some input_name ->
  normalize self (get_device self) input_name x = Err e ->
  (forall j nm, j < i -> _input_names self !! j = Some nm ->
     exists y t, nth_error inputs j = Some y
                 /\ normalize self (get_device self) nm y = Ok t) ->
  fst (forward self inputs w) = Err e.
Proof.
  intros Hlen Hfirst Hi Hname He Hbefore.
  rewrite forward_value. unfold final_map, seed, check_arity.
  rewrite Hlen, Nat.eqb_refl. simpl.
  assert (input_list inputs = Ok inputs) as ->.
  { unfold input_list. destruct pandas_installed; [| done]. simpl.
    destruct inputs as [|first rest]; [by destruct i |].
    by rewrite (Hfirst first). }
  simpl.
  by rewrite (bind_inputs_error self (get_device self) (_input_names self) 0 inputs ∅
                i input_name x e Hname Hi He Hbefore).
Qed.

End ForwardMore.

Section ForwardExtras.

Context `{Ext : External}.
Import NamingFacts.

Lemma init_flag_unset input_names output_names operator_map operators extra_config self :
  __init__ input_names output_names operator_map operators extra_config = Ok self ->
  check_dataframe_to_array self = None.
Proof.
  unfold __init__. intros H.
  destruct (Naming._fix_var_naming operators input_names Naming.Input); [| done].
  destruct (Naming._fix_var_naming (rev operators) output_names Naming.Output); [| done].
  simpl in H. destruct (mapR _ operators); [| done].
  simpl in H. by injection H as <-.
Qed.

Lemma replace_one_input self device names pre x y post vm :
  (forall nm, normalize self device nm x = normalize self device nm y) ->
  bind_inputs self device names 0 (pre ++ x :: post) vm
  = bind_inputs self device names 0 (pre ++ y :: post) vm.
Proof.
  intros Hxy. apply bind_inputs_ext. intros i nm _. simpl.
  destruct (Nat.lt_trichotomy i (length pre)) as [Hlt | [-> | Hgt]].
  - by rewrite !nth_error_app1 by done.
  - rewrite !nth_error_app2, Nat.sub_diag by done. simpl. apply Hxy.
  - rewrite !nth_error_app2 by lia.
    destruct (i - length pre) as [|j] eqn:E; [lia | done].
Qed.

(** With pandas installed, a call without positional inputs raises the
    index error, whatever the number of resolved input names: the
    assertion or the frame test reads [inputs[0]]. *)
Theorem forward_without_inputs self w :
  pandas_installed = true ->
  seed self [] = Err IndexError
  /\ fst (forward self [] w) = Err IndexError.
Proof.
  intros Hpd.
  assert (seed self [] = Err IndexError) as Hseed.
  { unfold seed, check_arity, input_list. rewrite Hpd. simpl.
    by destruct (Nat.eqb _ _). }
  split; [done |]. rewrite forward_value. unfold final_map. by rewrite Hseed.
Qed.

(** An array of a string kind, with no maximum string length
    configured, raises the bare assertion error of line 99; the string
    encoder is not reached. *)
Theorem text_input_needs_max_length self device name a :
  is_string_kind (Np.kind (Np.dtype_of a)) = true ->
  max_string_length self = None ->
  normalize self device name (Py_ndarray a) = Err (AssertionError None)
  /\ forall inputs i input_name w,
      length inputs = length (_input_names self) ->
      (forall first, hd_error inputs = Some first -> isinstance first Ty_DataFrame = false) ->
      nth_error inputs i = Some (Py_ndarray a) ->
      _input_names self !! i = Some input_name ->
      (forall j nm, j < i -> _input_names self !! j = Some nm ->
         exists y t, nth_error inputs j = Some y
                     /\ normalize self (get_device self) nm y = Ok t) ->
      fst (forward self inputs w) = Err (AssertionError None).
Proof.
  intros Hkind Hmax.
  assert (forall dev nm, normalize self dev nm (Py_ndarray a) = Err (AssertionError None))
    as Hraise.
  { intros dev nm. unfold normalize, convert_array. simpl. by rewrite Hkind, Hmax. }
  split; [apply Hraise |].
  intros inputs i input_name w Hlen Hfirst Hi Hname Hbefore.
  by apply (forward_raises_at self inputs i input_name (Py_ndarray a)).
Qed.

(** A list among the inputs is bound exactly as the array [np.array]
    makes of it: replacing the list by that array changes neither the
    seeded symbol table nor what the call returns. *)
Theorem list_bound_as_its_array self pre items post a w :
  np_array items = Ok a ->
  seed self (pre ++ Py_list items :: post) = seed self (pre ++ Py_ndarray a :: post)
  /\ fst (forward self (pre ++ Py_list items :: post) w)
     = fst (forward self (pre ++ Py_ndarray a :: post) w).
Proof.
  intros Hnp.
  assert (forall dev nm, normalize self dev nm (Py_list items)
                         = normalize self dev nm (Py_ndarray a)) as Hsame.
  { intros dev nm. unfold normalize. by rewrite Hnp. }
  assert (seed self (pre ++ Py_list items :: post)
          = seed self (pre ++ Py_ndarray a :: post)) as Hseed.
  { unfold seed.
    assert (check_arity self (pre ++ Py_list items :: post)
            = check_arity self (pre ++ Py_ndarray a :: post)) as ->.
    { unfold check_arity. rewrite !length_app. simpl. by destruct pre. }
    destruct (check_arity _ _); [| done]. simpl.
    unfold input_list. destruct pandas_installed; simpl.
    - destruct pre as [|p pre]; simpl.
      + apply (replace_one_input self (get_device self) (_input_names self) []). apply Hsame.
      + destruct (isinstance p Ty_DataFrame); [done |]. simpl.
        apply (replace_one_input self (get_device self) (_input_names self) (p :: pre)).
        apply Hsame.
    - apply replace_one_input. apply Hsame. }
  split; [done |]. rewrite !forward_value. unfold final_map. by rewrite Hseed.
Qed.

(** Normalisation is idempotent: the tensor bound for an input, given
    back as the input, is bound as it is. *)
Theorem bound_tensor_is_fixed_point self device name x t :
  normalize self device name x = Ok t ->
  normalize self device name (Py_Tensor t) = Ok t.
Proof.
  intros H. destruct (normalize_result self device name x t H) as (Hd & _ & Hplace).
  unfold normalize. simpl. rewrite decide_False by done. by rewrite Hplace.
Qed.

(** The seeded symbol table holds the resolved input names and nothing
    else. *)
Theorem seeded_names self inputs vm :
  seed self inputs = Ok vm ->
  forall name, is_Some (vm !! name) <-> name ∈ _input_names self.
Proof.
  unfold seed. intros H name.
  destruct (check_arity self inputs); [| done]. simpl in H.
  destruct (input_list inputs) as [ins|]; [| done]. simpl in H.
  destruct (bind_inputs_entries _ _ _ _ _ _ _ H name) as [Hout Hin].
  destruct (decide (name ∈ _input_names self)) as [Hname | Hname].
  - destruct (Hin Hname) as (x & t & _ & _ & ->). split; eauto.
  - rewrite (Hout Hname), lookup_empty. split; [by intros [? ?] | done].
Qed.

(** Every value of the seeded symbol table is a tensor that is not of
    double precision, and sits on the executor's device when that
    device is not the CPU. *)
Theorem seeded_tensors self inputs vm name v :
  seed self inputs = Ok vm ->
  vm !! name = Some v ->
  exists t,
    v = Py_Tensor t
    /\ Torch.dtype_of t <> Torch.float64
    /\ forall d, get_device self = Some d -> String.eqb (Torch.type d) "cpu" = false ->
         Torch.device_of t = d.
Proof.
  unfold seed. intros H Hv.
  destruct (check_arity self inputs); [| done]. simpl in H.
  destruct (input_list inputs) as [ins|]; [| done]. simpl in H.
  destruct (bind_inputs_entries _ _ _ _ _ _ _ H name) as [Hout Hin].
  destruct (decide (name ∈ _input_names self)) as [Hname | Hname].
  - destruct (Hin Hname) as (x & t & _ & Ht & Hvm).
    rewrite Hv in Hvm. injection Hvm as ->. exists t. split; [done |].
    destruct (normalize_result _ _ _ _ _ Ht) as (Hd & Hdev & _). split; [done |].
    intros d Hd' Hcpu. by apply Hdev.
  - rewrite (Hout Hname), lookup_empty in Hv. done.
Qed.

(** The operator loop only adds to the symbol table: a bound name stays
    bound, and a name no operator declares as output keeps its value. *)
Theorem operators_only_add operators vm vm' :
  run_operators operators vm = Ok vm' ->
  (forall name, is_Some (vm !! name) -> is_Some (vm' !! name))
  /\ (forall name, (forall op, op ∈ operators -> name ∉ outputs op) ->
        vm' !! name = vm !! name).
Proof.
  revert vm. induction operators as [|op operators IH]; intros vm H; simpl in H.
  - by injection H as <-.
  - destruct (run_operator op vm) as [vm1|] eqn:Hop; [| done]. simpl in H.
    destruct (run_operator_keeps _ _ _ Hop) as [Hsome1 Hother1].
    destruct (IH _ H) as [Hsome Hother]. split.
    + intros name Hname. by apply Hsome, Hsome1.
    + intros name Hnot. rewrite Hother by (intros op' Hop'; apply Hnot; by right).
      apply Hother1, Hnot. left.
Qed.

(** An operator reading a name the symbol table does not hold stops the
    call with the missing-key error for the first such name, its
    transform not applied. *)
Theorem operator_missing_input self given w vm pre operator post vm1 bound n unbound :
  seed self given = Ok vm ->
  _operators self = pre ++ operator :: post ->
  run_operators pre vm = Ok vm1 ->
  inputs operator = bound ++ n :: unbound ->
  (forall k, k ∈ bound -> is_Some (vm1 !! k)) ->
  vm1 !! n = None ->
  fst (forward self given w) = Err (KeyError n).
Proof.
  intros Hseed Hops Hpre Hin Hbound Hn.
  rewrite forward_value. unfold final_map. rewrite Hseed, Hops. simpl.
  rewrite run_operators_app, Hpre. simpl. unfold run_operator.
  rewrite Hin, (mapR_Err (getitem vm1) bound n unbound (KeyError n)); [done | |].
  - intros k Hk. destruct (Hbound k Hk) as [v Hv]. exists v. unfold getitem. by rewrite Hv.
  - unfold getitem. by rewrite Hn.
Qed.

(** An operator declaring a number of outputs other than one and
    returning a tuple: with fewer elements than declared outputs the
    index error is raised; otherwise each declared output name is bound
    to the element at its position (the last position, for a repeated
    name), elements beyond the declared outputs are dropped, and no
    other name changes. *)
Theorem operator_outputs_unpacked operator vm args vs :
  mapR (getitem vm) (inputs operator) = Ok args ->
  transform operator args = Ok (Py_tuple vs) ->
  length (outputs operator) <> 1 ->
  (length vs < length (outputs operator) -> run_operator operator vm = Err IndexError)
  /\ (length (outputs operator) <= length vs ->
      exists vm',
        run_operator operator vm = Ok vm'
        /\ (forall i o, outputs operator !! i = Some o ->
              (forall j, i < j -> outputs operator !! j <> Some o) ->
              vm' !! o = vs !! i)
        /\ (forall name, name ∉ outputs operator -> vm' !! name = vm !! name)).
Proof.
  intros Hargs Hout Hlen.
  assert (run_operator operator vm = bind_outputs (outputs operator) 0 (Py_tuple vs) vm)
    as ->.
  { unfold run_operator. rewrite Hargs. simpl. rewrite Hout. simpl.
    by destruct (outputs operator) as [|o [|o' names]]. }
  destruct (bind_outputs_tuple (outputs operator) 0 vs vm) as [Hok Hshort].
  split.
  - intros Hlt. apply Hshort; [lia | done].
  - intros Hle. destruct (Hok Hle) as [vm' Hvm']. exists vm'. split; [done |].
    split; [| by apply (bind_outputs_keeps _ _ _ _ _ Hvm')].
    intros i o Hi Hlast.
    destruct (bind_outputs_lookup _ _ _ _ _ _ _ Hvm' Hi Hlast) as (v & Hv & ->).
    simpl in Hv. destruct (nth_error vs i) as [y|] eqn:Hy; [| done].
    injection Hv as <-. symmetry. clear -Hy.
    revert i Hy. induction vs as [|z vs IH]; intros [|i] Hy; simpl in *; try done.
    by apply IH.
Qed.

(** Output assembly once the operator loop is over: without resolved
    output names the call returns the empty tuple; with a resolved
    output name the final symbol table does not hold, it raises the
    missing-key error for the first such name. *)
Theorem forward_output_lookup self given w vm :
  final_map self given = Ok vm ->
  (_output_names self = [] -> fst (forward self given w) = Ok (Py_tuple []))
  /\ (forall pre o post,
        _output_names self = pre ++ o :: post ->
        (forall k, k ∈ pre -> is_Some (vm !! k)) ->
        vm !! o = None ->
        fst (forward self given w) = Err (KeyError o)).
Proof.
  intros Hfinal. rewrite forward_value, Hfinal. simpl. unfold assemble. split.
  - by intros ->.
  - intros pre o post Houts Hpre Ho.
    assert (mapR (getitem vm) (_output_names self) = Err (KeyError o)) as Hm.
    { rewrite Houts. apply mapR_Err.
      - intros k Hk. destruct (Hpre k Hk) as [v Hv]. exists v. unfold getitem. by rewrite Hv.
      - unfold getitem. by rewrite Ho. }
    destruct (_output_names self) as [|o1 [|o2 names]].
    + by destruct pre.
    + revert Hm. simpl. destruct (getitem vm o1); simpl; [discriminate |].
      intros Hm. by injection Hm as ->.
    + by rewrite Hm.
Qed.

(** A frame passed first among as many positional arguments as there
    are input names, holding more columns than that under pairwise
    distinct labels: the columns beyond the expected number are
    dropped without notice, the table is seeded as by the arrays of the
    leading columns. *)
Theorem frame_extra_columns_ignored self first rest df cols extra :
  pandas_installed = true ->
  as_DataFrame first = Some df ->
  length (first :: rest) = length (_input_names self) ->
  Pd.series df = cols ++ extra ->
  length cols = length (_input_names self) ->
  NoDup (Pd.columns df) ->
  seed self (first :: rest)
  = seed self (List.map (fun c => Py_ndarray (Np.reshape_column (Pd.values c))) cols).
Proof.
  intros Hpd Hdf Hlen Hcols Hn Hnd.
  set (arr := fun c => Py_ndarray (Np.reshape_column (Pd.values c))).
  unfold seed, check_arity. rewrite Hlen, Nat.eqb_refl, length_map, Hn, Nat.eqb_refl. simpl.
  unfold input_list. rewrite Hpd. simpl.
  rewrite (as_DataFrame_isinstance _ _ Hdf), Hdf. simpl.
  rewrite (split_frame_distinct df Hnd), Hcols, map_app. fold arr.
  rewrite bind_inputs_prefix by (rewrite length_map; lia).
  destruct cols as [|c cols]; [simpl in Hn; simpl in Hlen; lia |]. done.
Qed.

(** A frame passed first among as many positional arguments as there
    are input names, holding fewer columns than that: the assertion
    passes, and once the columns there are have been bound the loop
    raises the index error, not the arity error. *)
Theorem frame_with_too_few_columns self first rest df w :
  pandas_installed = true ->
  as_DataFrame first = Some df ->
  length (first :: rest) = length (_input_names self) ->
  length (Pd.series df) < length (_input_names self) ->
  (forall i x nm,
     nth_error (split_frame df) i = Some x -> _input_names self !! i = Some nm ->
     exists t, normalize self (get_device self) nm x = Ok t) ->
  seed self (first :: rest) = Err IndexError
  /\ fst (forward self (first :: rest) w) = Err IndexError.
Proof.
  intros Hpd Hdf Hlen Hfew Hok.
  assert (seed self (first :: rest) = Err IndexError) as Hseed.
  { unfold seed, check_arity. rewrite Hlen, Nat.eqb_refl. simpl.
    unfold input_list. rewrite Hpd. simpl.
    rewrite (as_DataFrame_isinstance _ _ Hdf), Hdf. simpl.
    apply bind_inputs_short; [lia | | done].
    unfold split_frame, Pd.columns. rewrite !length_map. simpl. lia. }
  split; [done |]. rewrite forward_value. unfold final_map. by rewrite Hseed.
Qed.

(** The constructor assigns no [check_dataframe_to_array]: on an
    executor as it leaves the constructor, with pandas installed, a
    call whose first input is a frame and whose number of positional
    inputs differs from the number of input names raises the attribute
    error for that name. *)
Theorem fresh_executor_frame_attribute_error
    input_names output_names operator_map operators extra_config self first rest w :
  __init__ input_names output_names operator_map operators extra_config = Ok self ->
  pandas_installed = true ->
  isinstance first Ty_DataFrame = true ->
  length (first :: rest) <> length (_input_names self) ->
  fst (forward self (first :: rest) w) = Err (AttributeError "check_dataframe_to_array").
Proof.
  intros Hinit Hpd Hframe Hlen. apply init_flag_unset in Hinit.
  rewrite forward_value. unfold final_map, seed, check_arity.
  replace (Nat.eqb _ _) with false by (symmetry; apply Nat.eqb_neq; lia).
  by rewrite Hpd, Hframe, Hinit.
Qed.

End ForwardExtras.

(** * The further properties on concrete graphs and calls *)

Lemma resolver_succeeds_when_all_match_witness :
  exists new_names,
    Naming._fix_var_naming [Sample.scaler; Sample.classifier] ["y"; "p"] Naming.Output
    = Ok new_names
    /\ length new_names = length ["y"; "p"]
    /\ forall i n, ["y"; "p"] !! i = Some n ->
         exists v,
           Naming.first_named n
             (Naming.visited Naming.Output [Sample.scaler; Sample.classifier]) = Some v
           /\ new_names !! i = Some (Naming.full_name v).
Proof.
  apply (resolver_succeeds_when_all_match
           [Sample.scaler; Sample.classifier] ["y"; "p"] Naming.Output).
  intros n Hn. apply elem_of_cons in Hn as [-> | Hn].
  - exists (Naming.mkVar "y" "y1"). split; [left | reflexivity].
  - apply elem_of_cons in Hn as [-> | Hn]; [| by apply elem_of_nil in Hn].
    exists (Naming.mkVar "p" "p0"). split; [right; right; left | reflexivity].
Defined.

Lemma input_names_follow_first_consumer_witness :
  exists self,
    __init__ (Ext := Sample.ext) ["y"] ["p"] Sample.operator_map
      ([Sample.scaler] ++ Sample.classifier :: []) ∅ = Ok self
    /\ forall i, ["y"] !! i = Some "y" -> _input_names self !! i = Some "y1".
Proof.
  apply (input_names_follow_first_consumer (Ext := Sample.ext)
           ["y"] ["p"] Sample.operator_map ∅
           [Sample.scaler] Sample.classifier [] (Naming.mkVar "y" "y1") "y").
  - reflexivity.
  - intros op v' Hop Hv'. apply elem_of_cons in Hop as [-> | Hop];
      [| by apply elem_of_nil in Hop].
    apply elem_of_cons in Hv' as [-> | Hv']; [discriminate | by apply elem_of_nil in Hv'].
  - left.
  - intros n' Hn'. apply elem_of_cons in Hn' as [-> | Hn']; [| by apply elem_of_nil in Hn'].
    exists (Naming.mkVar "y" "y1"). split; [right; left | reflexivity].
  - intros n' Hn'. apply elem_of_cons in Hn' as [-> | Hn']; [| by apply elem_of_nil in Hn'].
    exists (Naming.mkVar "p" "p0"). split; [right; right; left | reflexivity].
  - intros op Hop. apply elem_of_cons in Hop as [-> | Hop].
    + exists Sample.scaler_module. vm_compute. reflexivity.
    + apply elem_of_cons in Hop as [-> | Hop]; [| by apply elem_of_nil in Hop].
      exists Sample.classifier_module. vm_compute. reflexivity.
Defined.

Lemma resolver_identity_without_renaming_witness :
  Naming._fix_var_naming [Sample.plain] ["x"] Naming.Input = Ok ["x"]
  \/ exists n, n ∈ ["x"]
               /\ (forall v, v ∈ Naming.visited Naming.Input [Sample.plain] ->
                     Naming.raw_name v <> n)
               /\ Naming._fix_var_naming [Sample.plain] ["x"] Naming.Input
                  = Err (KeyError n).
Proof.
  apply (resolver_identity_without_renaming [Sample.plain] ["x"] Naming.Input).
  intros v Hv. apply elem_of_cons in Hv as [-> | Hv]; [reflexivity | by apply elem_of_nil in Hv].
Defined.

Lemma init_missing_operator_witness :
  __init__ (Ext := Sample.ext) ["x"] ["y"; "p"] (<["scaler" := Sample.scaler_module]> ∅)
    ([Sample.scaler] ++ Sample.classifier :: []) ∅
  = Err (KeyError (Naming.op_full_name Sample.classifier)).
Proof.
  apply (init_missing_operator (Ext := Sample.ext) ["x"] ["y"; "p"]
           (<["scaler" := Sample.scaler_module]> ∅) ∅ ["x0"] ["y2"; "p0"]
           [Sample.scaler] Sample.classifier []).
  - vm_compute. reflexivity.
  - vm_compute. reflexivity.
  - intros o Ho. apply elem_of_cons in Ho as [-> | Ho]; [| by apply elem_of_nil in Ho].
    exists Sample.scaler_module. vm_compute. reflexivity.
  - vm_compute. reflexivity.
Defined.

Lemma forward_without_inputs_witness :
  seed (Ext := Sample.ext) (Sample.one_input None) [] = Err IndexError
  /\ fst (forward (Ext := Sample.ext) (Sample.one_input None) [] Sample.world)
     = Err IndexError.
Proof.
  apply (forward_without_inputs (Ext := Sample.ext) (Sample.one_input None) Sample.world).
  reflexivity.
Defined.

Lemma text_input_needs_max_length_witness :
  normalize (Ext := Sample.ext) (Sample.one_input None) None "x0" (Py_ndarray Sample.words)
  = Err (AssertionError None)
  /\ fst (forward (Ext := Sample.ext) (Sample.one_input None)
            [Py_ndarray Sample.words] Sample.world)
     = Err (AssertionError None).
Proof.
  destruct (text_input_needs_max_length (Ext := Sample.ext) (Sample.one_input None)
              None "x0" Sample.words eq_refl eq_refl) as [Hbody Hcall].
  split; [exact Hbody |].
  apply (Hcall [Py_ndarray Sample.words] 0 "x0" Sample.world); try reflexivity.
  - intros first Hfirst. injection Hfirst as <-. reflexivity.
  - intros j nm Hj. lia.
Defined.

Lemma list_bound_as_its_array_witness :
  seed (Ext := Sample.ext) (Sample.one_input None)
    ([] ++ Py_list [Py_scalar (Np.Float (IEEE.b64_of_Z 1))] :: [])
  = seed (Ext := Sample.ext) (Sample.one_input None)
      ([] ++ Py_ndarray (Sample.doubles [1]%Z) :: [])
  /\ fst (forward (Ext := Sample.ext) (Sample.one_input None)
            ([] ++ Py_list [Py_scalar (Np.Float (IEEE.b64_of_Z 1))] :: []) Sample.world)
     = fst (forward (Ext := Sample.ext) (Sample.one_input None)
              ([] ++ Py_ndarray (Sample.doubles [1]%Z) :: []) Sample.world).
Proof.
  apply (list_bound_as_its_array (Ext := Sample.ext) (Sample.one_input None) []
           [Py_scalar (Np.Float (IEEE.b64_of_Z 1))] [] (Sample.doubles [1]%Z) Sample.world).
  reflexivity.
Defined.

Lemma bound_tensor_is_fixed_point_witness :
  exists t,
    normalize (Ext := Sample.ext) (Sample.one_input None) None "x0"
      (Py_ndarray (Sample.doubles [1; 2]%Z)) = Ok t
    /\ normalize (Ext := Sample.ext) (Sample.one_input None) None "x0" (Py_Tensor t) = Ok t.
Proof.
  eexists. split; [vm_compute; reflexivity |].
  apply (bound_tensor_is_fixed_point (Ext := Sample.ext) (Sample.one_input None) None "x0"
           (Py_ndarray (Sample.doubles [1; 2]%Z))).
  vm_compute. reflexivity.
Defined.

Lemma seeded_names_witness :
  exists vm,
    seed (Ext := Sample.ext) (Sample.two_inputs None)
      [Py_ndarray (Sample.doubles [1]%Z); Py_ndarray (Sample.singles [2]%Z)] = Ok vm
    /\ forall name, is_Some (vm !! name) <-> name ∈ _input_names (Sample.two_inputs None).
Proof.
  eexists. split; [vm_compute; reflexivity |].
  apply (seeded_names (Ext := Sample.ext) (Sample.two_inputs None)
           [Py_ndarray (Sample.doubles [1]%Z); Py_ndarray (Sample.singles [2]%Z)]).
  vm_compute. reflexivity.
Defined.

Lemma seeded_tensors_witness :
  exists vm v,
    seed (Ext := Sample.ext_cuda) (Sample.one_input None)
      [Py_ndarray (Sample.doubles [1]%Z)] = Ok vm
    /\ vm !! "x0" = Some v
    /\ exists t,
        v = Py_Tensor t
        /\ Torch.dtype_of t <> Torch.float64
        /\ forall d, get_device (External := Sample.ext_cuda) (Sample.one_input None) = Some d ->
             String.eqb (Torch.type d) "cpu" = false ->
             Torch.device_of t = d.
Proof.
  eexists. eexists. split; [vm_compute; reflexivity |]. split; [vm_compute; reflexivity |].
  eapply (seeded_tensors (Ext := Sample.ext_cuda) (Sample.one_input None)
           [Py_ndarray (Sample.doubles [1]%Z)] _ "x0").
  - vm_compute. reflexivity.
  - vm_compute. reflexivity.
Defined.

Lemma operators_only_add_witness :
  exists vm',
    run_operators [Sample.scaler_module; Sample.classifier_module]
      {[ "x0" := Py_tuple [Py_other "a"; Py_other "b"] ]} = Ok vm'
    /\ (forall name,
          is_Some (({[ "x0" := Py_tuple [Py_other "a"; Py_other "b"] ]}
                    : gmap string pyobj) !! name) ->
          is_Some (vm' !! name))
    /\ (forall name,
          (forall op, op ∈ [Sample.scaler_module; Sample.classifier_module] ->
                      name ∉ outputs op) ->
          vm' !! name
          = ({[ "x0" := Py_tuple [Py_other "a"; Py_other "b"] ]} : gmap string pyobj) !! name).
Proof.
  eexists. split; [vm_compute; reflexivity |].
  apply (operators_only_add [Sample.scaler_module; Sample.classifier_module]
           {[ "x0" := Py_tuple [Py_other "a"; Py_other "b"] ]}).
  vm_compute. reflexivity.
Defined.

Lemma operator_missing_input_witness :
  fst (forward (Ext := Sample.ext) Sample.dangling
         [Py_ndarray (Sample.doubles [1]%Z)] Sample.world)
  = Err (KeyError "y1").
Proof.
  eapply (operator_missing_input (Ext := Sample.ext) Sample.dangling
            [Py_ndarray (Sample.doubles [1]%Z)] Sample.world _
            [] Sample.classifier_module [] _ [] "y1" []).
  - vm_compute. reflexivity.
  - reflexivity.
  - reflexivity.
  - reflexivity.
  - intros k Hk. by apply elem_of_nil in Hk.
  - vm_compute. reflexivity.
Defined.

Lemma operator_outputs_unpacked_witness :
  let x := Py_tuple [Py_other "a"; Py_other "b"] in
  let vm : gmap string pyobj := {[ "y1" := x ]} in
  (length [x; Py_other "a"] < length (outputs Sample.classifier_module) ->
   run_operator Sample.classifier_module vm = Err IndexError)
  /\ (length (outputs Sample.classifier_module) <= length [x; Py_other "a"] ->
      exists vm',
        run_operator Sample.classifier_module vm = Ok vm'
        /\ (forall i o, outputs Sample.classifier_module !! i = Some o ->
              (forall j, i < j -> outputs Sample.classifier_module !! j <> Some o) ->
              vm' !! o = [x; Py_other "a"] !! i)
        /\ (forall name, name ∉ outputs Sample.classifier_module ->
              vm' !! name = vm !! name)).
Proof.
  cbv zeta.
  apply (operator_outputs_unpacked Sample.classifier_module
           {[ "y1" := Py_tuple [Py_other "a"; Py_other "b"] ]}
           [Py_tuple [Py_other "a"; Py_other "b"]]
           [Py_tuple [Py_other "a"; Py_other "b"]; Py_other "a"]).
  - vm_compute. reflexivity.
  - reflexivity.
  - simpl. lia.
Defined.

Lemma forward_output_lookup_witness :
  fst (forward (Ext := Sample.ext) Sample.unproduced
         [Py_ndarray (Sample.doubles [1]%Z)] Sample.world)
  = Err (KeyError "zz").
Proof.
  assert (exists vm, final_map (Ext := Sample.ext) Sample.unproduced
                       [Py_ndarray (Sample.doubles [1]%Z)] = Ok vm
                     /\ vm !! "y1" <> None /\ vm !! "zz" = None) as (vm & Hvm & Hy & Hz).
  { eexists. split; [vm_compute; reflexivity |]. split; by vm_compute. }
  destruct (forward_output_lookup (Ext := Sample.ext) Sample.unproduced
              [Py_ndarray (Sample.doubles [1]%Z)] Sample.world vm Hvm) as [_ Hmissing].
  apply (Hmissing ["y1"] "zz" []); [reflexivity | | exact Hz].
  intros k Hk. apply elem_of_cons in Hk as [-> | Hk]; [| by apply elem_of_nil in Hk].
  by destruct (vm !! "y1").
Defined.

Lemma frame_extra_columns_ignored_witness :
  seed (Ext := Sample.ext) (Sample.one_input None) [Py_DataFrame Sample.two_columns]
  = seed (Ext := Sample.ext) (Sample.one_input None)
      (List.map (fun c => Py_ndarray (Np.reshape_column (Pd.values c)))
         [{| Pd.name := "c"; Pd.values := Sample.doubles [1; 2]%Z |}]).
Proof.
  apply (frame_extra_columns_ignored (Ext := Sample.ext) (Sample.one_input None)
           (Py_DataFrame Sample.two_columns) [] Sample.two_columns
           [{| Pd.name := "c"; Pd.values := Sample.doubles [1; 2]%Z |}]
           [{| Pd.name := "d"; Pd.values := Sample.doubles [3; 4]%Z |}]);
    try reflexivity.
  apply (bool_decide_unpack _). vm_compute. exact I.
Defined.

Lemma frame_with_too_few_columns_witness :
  seed (Ext := Sample.ext) (Sample.two_inputs None)
    [Py_DataFrame Sample.one_column; Py_other "NoneType"] = Err IndexError
  /\ fst (forward (Ext := Sample.ext) (Sample.two_inputs None)
            [Py_DataFrame Sample.one_column; Py_other "NoneType"] Sample.world)
     = Err IndexError.
Proof.
  apply (frame_with_too_few_columns (Ext := Sample.ext) (Sample.two_inputs None)
           (Py_DataFrame Sample.one_column) [Py_other "NoneType"] Sample.one_column
           Sample.world); try reflexivity.
  - simpl. lia.
  - intros i x nm Hx Hnm. destruct i as [|i].
    + injection Hx as <-. injection Hnm as <-. eexists. vm_compute. reflexivity.
    + simpl in Hx. by destruct i.
Defined.

Lemma fresh_executor_frame_attribute_error_witness :
  fst (forward (Ext := Sample.ext) Sample.built
         [Py_DataFrame Sample.two_columns; Py_other "NoneType"] Sample.world)
  = Err (AttributeError "check_dataframe_to_array").
Proof.
  apply (fresh_executor_frame_attribute_error (Ext := Sample.ext)
           ["x"] ["y"; "p"] Sample.operator_map [Sample.scaler; Sample.classifier] ∅
           Sample.built (Py_DataFrame Sample.two_columns) [Py_other "NoneType"] Sample.world).
  - vm_compute. reflexivity.
  - reflexivity.
  - reflexivity.
  - simpl. lia.
Defined.
